(** * Allure-To-TestIT importer: a shallow embedding of [allure2testit-cli.ts]

    The script reads Allure [*-result.json] files from a directory, translates
    every test record (steps, status, timing, attachments) and replays it into
    the Test IT REST API.  The embedding below follows the TypeScript source
    function by function.  The numbers of a report file are its time stamps,
    whole milliseconds since the epoch, kept as integers ([Z]); their
    difference is the IEEE 754 binary64 difference of the source, which is
    the exact one as long as it has at most 53 bits and is rounded beyond.
    A number in general, as the parameter of [convertAllureTimestamp] admits
    it, is a binary64 value of the Standard Library's [SpecFloat].
    JavaScript strings are modelled as [string]; the only characters the
    program inspects are ASCII. *)

From Stdlib Require Import ZArith Lia Ascii String.
From Stdlib Require Floats.SpecFloat.
From stdpp Require Import base option list sorting strings pretty gmap.

Set Warnings "-register-all".

Open Scope string_scope.
Open Scope list_scope.
Open Scope Z_scope.

(** ** JavaScript primitives used by the script *)

Module JS.

(** [s.endsWith(suffix)] *)
Definition endsWith (s suffix : string) : bool :=
  let n := String.length s in
  let m := String.length suffix in
  (m <=? n)%nat && String.eqb (String.substring (n - m) m s) suffix.

(** Truthiness of a value of type [string | undefined]: the empty string and
    [undefined] are falsy. *)
Definition truthy_str (s : option string) : bool :=
  match s with
  | Some s => negb (String.eqb s "")
  | None => false
  end.

(** Truthiness of a value of type [number | undefined]: [0] and [undefined]
    are falsy (NaN cannot come out of a JSON file). *)
Definition truthy_num (n : option Z) : bool :=
  match n with
  | Some n => negb (n =? 0)
  | None => false
  end.

(** *** Numbers

    A number is an IEEE 754 binary64 value: 53 significant bits.  Every
    integer of magnitude up to [2^53] is one; a larger integer is one only
    when the bits below its 53 leading ones are zero. *)

(** [Number.isSafeInteger(z)] *)
Definition isSafeInteger (z : Z) : bool := Z.abs z <=? 9007199254740991.

(** The double nearest to the integer [z], a tie going to the even
    significand: an integer with more than 53 bits is rounded at [ulp], the
    weight of the last bit that fits.  (A double ends at [2^1024]; an integer
    that large is [Infinity], which is outside of [Z].) *)
Definition binary64 (z : Z) : Z :=
  let a := Z.abs z in
  let e := Z.log2 a - 52 in
  if e <=? 0 then z
  else
    let ulp := 2 ^ e in
    let q := a / ulp in
    let r := a mod ulp in
    let q' := if (ulp <? 2 * r) || ((2 * r =? ulp) && Z.odd q) then q + 1 else q in
    Z.sgn z * (q' * ulp).

(** [a - b] on two integer-valued doubles: the exact difference, rounded to
    a double. *)
Definition sub (a b : Z) : Z := binary64 (a - b).

(** A number in general: finite (zero of either sign, or [-1^s * m * 2^e]),
    infinite or NaN. *)
Definition number : Type := SpecFloat.spec_float.

(** The number that is the integer [z]. *)
Definition int (z : Z) : number :=
  match z with
  | Z0 => SpecFloat.S754_zero false
  | Zpos m => SpecFloat.S754_finite false m 0
  | Zneg m => SpecFloat.S754_finite true m 0
  end.

(** Truthiness of a value of type [number | undefined] in general: [+0],
    [-0], [NaN] and [undefined] are falsy. *)
Definition truthy_number (n : option number) : bool :=
  match n with
  | Some (SpecFloat.S754_finite _ _ _) | Some (SpecFloat.S754_infinity _) => true
  | Some (SpecFloat.S754_zero _) | Some SpecFloat.S754_nan | None => false
  end.

(** [x ?? d] *)
Definition nullish {A} (x : option A) (d : A) : A :=
  match x with
  | Some a => a
  | None => d
  end.

(** Values of type [any]: what [JSON.parse] can return, plus [undefined],
    which appears as the value of a missing property.  An object keeps its
    own properties in property order. *)
Inductive value : Type :=
| Undefined
| Null
| Bool (b : bool)
| Num (n : Z)
| Str (s : string)
| Arr (elems : list value)
| Obj (props : list (string * value)).

(** *** Ordinary objects

    [OrdinaryOwnPropertyKeys] lists array-index keys first, in ascending
    numeric order, and then the other string keys in creation order.  An
    object is kept as the association list of its own properties in exactly
    that order. *)

Definition digit_of (a : Ascii.ascii) : option N :=
  let n := Ascii.N_of_ascii a in
  if ((48 <=? n) && (n <=? 57))%N then Some (n - 48)%N else None.

Fixpoint digits_value (acc : N) (s : string) : option N :=
  match s with
  | EmptyString => Some acc
  | String a s' =>
      match digit_of a with
      | Some d => digits_value (10 * acc + d)%N s'
      | None => None
      end
  end.

(** A key is an array index when it is the canonical decimal form of an
    integer in [0, 2^32 - 2]. *)
Definition array_index (k : string) : option N :=
  match k with
  | EmptyString => None
  | String a rest =>
      if Ascii.eqb a "0"%char && negb (String.eqb rest "") then None
      else match digits_value 0 k with
           | Some n => if (n <=? 4294967294)%N then Some n else None
           | None => None
           end
  end.

(** [before k k']: a new key [k] is listed before the existing key [k']. *)
Definition before (k k' : string) : bool :=
  match array_index k, array_index k' with
  | Some n, Some n' => (n <? n')%N
  | Some _, None => true
  | None, _ => false
  end.

Section Objects.
Context {V : Type}.

(** [o[k]] for an own property, [undefined] ([None]) otherwise. *)
Fixpoint get (k : string) (o : list (string * V)) : option V :=
  match o with
  | [] => None
  | (k', v) :: o' => if String.eqb k k' then Some v else get k o'
  end.

(** [o[k] = v] / [CreateDataProperty]: an existing key keeps its place
    and its old value is replaced; a new key is placed according to
    [before]. *)
Fixpoint set (k : string) (v : V) (o : list (string * V)) : list (string * V) :=
  match o with
  | [] => [(k, v)]
  | (k', v') :: o' =>
      if String.eqb k k' then (k, v) :: o'
      else if before k k' && negb (existsb (fun p => String.eqb k (fst p)) o')
           then (k, v) :: (k', v') :: o'
           else (k', v') :: set k v o'
  end.

(** [Object.fromEntries(entries)] and object literals: properties are
    defined one after the other. *)
Definition fromEntries (entries : list (string * V)) : list (string * V) :=
  foldl (fun o e => set (fst e) (snd e) o) [] entries.

Definition keys (o : list (string * V)) : list string := map fst o.
Definition values (o : list (string * V)) : list V := map snd o.
End Objects.

(** ToBoolean *)
Definition truthy (v : value) : bool :=
  match v with
  | Undefined | Null => false
  | Bool b => b
  | Num n => negb (n =? 0)
  | Str s => negb (String.eqb s "")
  | Arr _ | Obj _ => true
  end.

(** ToString, as applied by a template literal. *)
Fixpoint to_string (v : value) : string :=
  match v with
  | Undefined => "undefined"
  | Null => "null"
  | Bool true => "true"
  | Bool false => "false"
  | Num n => pretty n
  | Str s => s
  | Arr elems =>
      String.concat ","
        (map (fun e => match e with
                       | Undefined | Null => ""
                       | _ => to_string e
                       end) elems)
  | Obj _ => "[object Object]"
  end.

(** What the program can throw.  [ProcessExit] stands for [process.exit]:
    it is no exception, it ends the process on the spot, and no [catch]
    below handles it. *)
Inductive exn : Type :=
| Error (message : string)
| TypeError (message : string)
| RangeError (message : string)
| SyntaxError (message : string)
| FetchError (message : string)
| SystemError (code : string) (path : string)
| ProcessExit (code : Z).

Inductive completion (A : Type) : Type :=
| Normal (a : A)
| Throw (e : exn).
Arguments Normal {A} a.
Arguments Throw {A} e.

(** [v[k]] / [v.k] on a value of type [any]. *)
Definition member (v : value) (k : string) : completion value :=
  match v with
  | Undefined | Null =>
      Throw (TypeError ("Cannot read properties of " +:+ to_string v))
  | Obj props => Normal (default Undefined (get k props))
  | Arr elems =>
      if String.eqb k "length" then Normal (Num (Z.of_nat (length elems)))
      else match array_index k with
           | Some i => Normal (default Undefined (elems !! N.to_nat i))
           | None => Normal Undefined
           end
  | Str s =>
      if String.eqb k "length" then Normal (Num (Z.of_nat (String.length s)))
      else match array_index k with
           | Some i =>
               match String.get (N.to_nat i) s with
               | Some c => Normal (Str (String c ""))
               | None => Normal Undefined
               end
           | None => Normal Undefined
           end
  | Bool _ | Num _ => Normal Undefined
  end.

(** [v === s] for a string [s] *)
Definition strict_eq_str (v : value) (s : string) : bool :=
  match v with
  | Str s' => String.eqb s' s
  | _ => false
  end.

(** [v.find(pred)]: only an array has a [find] method. *)
Fixpoint find_in (pred : value -> completion bool) (elems : list value)
  : completion value :=
  match elems with
  | [] => Normal Undefined
  | e :: elems' =>
      match pred e with
      | Normal true => Normal e
      | Normal false => find_in pred elems'
      | Throw err => Throw err
      end
  end.

Definition find (v : value) (pred : value -> completion bool) : completion value :=
  match v with
  | Arr elems => find_in pred elems
  | Undefined | Null =>
      Throw (TypeError ("Cannot read properties of " +:+ to_string v))
  | _ => Throw (TypeError "find is not a function")
  end.

(** [array.sort(compareFn)].  The sort is stable, and for a comparator
    that orders by a numeric key the result is the one stable arrangement in
    ascending key order; insertion from the right computes it: an element
    goes in front of the first element it does not compare greater than. *)
Section Sort.
Context {A : Type} (compareFn : A -> A -> Z).

Fixpoint insert (x : A) (l : list A) : list A :=
  match l with
  | [] => [x]
  | y :: l' => if compareFn x y <=? 0 then x :: y :: l' else y :: insert x l'
  end.

Definition sort (l : list A) : list A := foldr insert [] l.
End Sort.

(** Typed data placed into a request body. *)
Definition of_string (s : string) : value := Str s.
Definition of_optional (s : option string) : value :=
  match s with
  | Some s => Str s
  | None => Undefined
  end.

End JS.

(** ** The platform's [Date]

    [new Date(value)] clips a time value outside of +-8.64e15 ms to an invalid
    date, on which [toISOString] throws a [RangeError].  On a valid date
    [toISOString] prints [YYYY-MM-DDTHH:mm:ss.sssZ] in UTC, with the expanded
    year form [+-YYYYYY] for a year outside of [0, 9999]. *)

Module Date.

Definition msPerDay : Z := 86400000.
Definition maxTime : Z := 8640000000000000.

Definition valid (t : Z) : bool := (- maxTime <=? t) && (t <=? maxTime).

(** [new Date(value)] for a number: the time value of the date, which is
    [TimeClip(value)]: [NaN] ([None], an invalid date) for a number that is
    not finite or lies outside of +-8.64e15, and otherwise the number with
    its fraction cut off.  A finite number is the quotient [n / d] of two
    integers, up to its sign. *)
Definition TimeClip (value : JS.number) : option Z :=
  match value with
  | SpecFloat.S754_zero _ => Some 0
  | SpecFloat.S754_finite s m e =>
      let n := Z.pos m * 2 ^ Z.max 0 e in
      let d := 2 ^ Z.max 0 (- e) in
      if n <=? maxTime * d then Some (SpecFloat.cond_Zopp s (n / d)) else None
  | SpecFloat.S754_infinity _ | SpecFloat.S754_nan => None
  end.

(** [Day(t)] and [TimeWithinDay(t)] *)
Definition Day (t : Z) : Z := t / msPerDay.
Definition TimeWithinDay (t : Z) : Z := t mod msPerDay.

(** Proleptic Gregorian date (year, month 1..12, day 1..31) of a day number
    counted from 1970-01-01; the year runs from March to February inside a
    400-year era of 146097 days. *)
Definition civil (day : Z) : Z * Z * Z :=
  let z := day + 719468 in
  let era := z / 146097 in
  let doe := z mod 146097 in
  let yoe := (doe - doe / 1460 + doe / 36524 - doe / 146096) / 365 in
  let doy := doe - (365 * yoe + yoe / 4 - yoe / 100) in
  let mp := (5 * doy + 2) / 153 in
  let d := doy - (153 * mp + 2) / 5 + 1 in
  let m := if mp <? 10 then mp + 3 else mp - 9 in
  let y := yoe + era * 400 in
  (if m <=? 2 then y + 1 else y, m, d).

Definition digit (d : Z) : ascii := ascii_of_N (Z.to_N (48 + d mod 10)).

(** The last [width] decimal digits of [n], zero padded. *)
Fixpoint pad (width : nat) (n : Z) : string :=
  match width with
  | O => ""
  | S w => pad w (n / 10) +:+ String (digit n) ""
  end.

Definition year_string (y : Z) : string :=
  if (0 <=? y) && (y <=? 9999) then pad 4 y
  else if 0 <=? y then "+" +:+ pad 6 y
  else "-" +:+ pad 6 (- y).

Definition toISOString (t : Z) : option string :=
  if valid t then
    let '(y, m, d) := civil (Day t) in
    let ms := TimeWithinDay t in
    Some (year_string y +:+ "-" +:+ pad 2 m +:+ "-" +:+ pad 2 d +:+ "T" +:+
          pad 2 (ms / 3600000) +:+ ":" +:+ pad 2 (ms / 60000 mod 60) +:+ ":" +:+
          pad 2 (ms / 1000 mod 60) +:+ "." +:+ pad 3 (ms mod 1000) +:+ "Z")
  else None.

(** [DayFromYear(y)] of the ECMAScript specification: the day number of the
    first day of year [y]. *)
Definition DayFromYear (y : Z) : Z :=
  365 * (y - 1970) + (y - 1969) / 4 - (y - 1901) / 100 + (y - 1601) / 400.

(** [new Date(value).toISOString()] for a number. *)
Definition toISOString_number (value : JS.number) : option string :=
  match TimeClip value with
  | Some t => toISOString t
  | None => None
  end.

(** What time value 0 prints as. *)
Definition epochString : string := "1970-01-01T00:00:00.000Z".

End Date.

(** ** Data model: the interfaces of the script *)

(** A [{ name, value }] pair: a label of a test record or a parameter of a
    step. *)
Module NameValue.
Record t : Type := mk { name : string; value : string }.
End NameValue.

(** An attachment descriptor of a report file. *)
Module Attachment.
Record t : Type := mk { source : string; type : string }.
End Attachment.

(** [interface AllureStep].  [name] and [attachments] may be missing in a
    report file, which the script allows for ([!allureStep.name],
    [allureStep.attachments ?? []]). *)
Module AllureStep.
Inductive t : Type := mk {
  name : option string;
  steps : option (list t);
  attachments : option (list Attachment.t);
  parameters : option (list NameValue.t);
  status : option string;
  start : option Z;
  stop : option Z
}.
End AllureStep.

(** [interface StepSpec] *)
Module StepSpec.
Inductive t : Type := mk {
  title : string;
  steps : list t
}.
End StepSpec.

(** [interface AttachRef] *)
Module AttachRef.
Record t : Type := mk { id : JS.value }.
End AttachRef.

(** [interface StepResult] *)
Module StepResult.
Inductive t : Type := mk {
  title : string;
  stepResults : list t;
  outcome : string;
  duration : Z;
  parameters : list (string * string);
  attachments : list AttachRef.t
}.
End StepResult.

(** [interface StatusDetails] *)
Module StatusDetails.
Record t : Type := mk { message : option string; trace : option string }.
End StatusDetails.

(** [interface AllureResult].  [statusDetails] is declared as required, but a
    report file may lack it; reading [statusDetails.message] then throws. *)
Module AllureResult.
Record t : Type := mk {
  historyId : string;
  name : string;
  steps : option (list AllureStep.t);
  labels : option (list NameValue.t);
  start : option Z;
  stop : option Z;
  status : option string;
  attachments : option (list Attachment.t);
  statusDetails : option StatusDetails.t
}.
End AllureResult.

(** [interface Args] *)
Module Args.
Record t : Type := mk {
  inputDir : string;
  url : string;
  token : string;
  projectId : string;
  configurationId : string;
  testRunName : string
}.
End Args.

(** ** The world: file system, remote service, console *)

Inductive FsNode : Type :=
| File (content : string)
| Directory (entries : list string).

(** The body handed to [fetch]: [JSON.stringify(body)] of a value, kept as the
    value, or a multipart form with one file. *)
Inductive Payload : Type :=
| Json (body : JS.value)
| Multipart (filename : string) (content : string) (contentType : string).

Module Request.
Record t : Type := mk {
  method : string;
  url : string;
  headers : list (string * string);
  body : Payload
}.
End Request.

Module Response.
(** [json] is [None] when the response text is not JSON, in which case
    [resp.json()] rejects. *)
Record t : Type := mk {
  status : Z;
  statusText : string;
  url : string;
  text : string;
  json : option JS.value
}.

(** [resp.ok] *)
Definition ok (resp : t) : bool := (200 <=? status resp) && (status resp <? 300).
End Response.

(** What a call of [fetch] ends with: a response, or a rejection (transport
    failure). *)
Inductive FetchResult : Type :=
| Responded (resp : Response.t)
| Rejected (reason : string).

(** What [JSON.parse] makes of the text of a report file: a test record, a
    falsy value ([null], [0], [false], the empty string; [Parsed None]), or a
    [SyntaxError]. *)
Inductive ParseResult : Type :=
| Parsed (record : option AllureResult.t)
| Malformed (message : string).

(** The surroundings of one run.  The file system is only read.  The remote
    service answers a request depending on everything it was sent before.
    [path.resolve], [path.join] and [JSON.parse] are the platform's. *)
Module Env.
Record t : Type := mk {
  fs : gmap string FsNode;
  path_resolve : string -> string;
  path_join : string -> string -> string;
  JSON_parse : string -> ParseResult;
  fetch : list (Request.t * FetchResult) -> Request.t -> FetchResult
}.
End Env.

Inductive Level : Type := log | debug | warn | error.

Inductive LogArg : Type :=
| Text (s : string)
| Caught (e : JS.exn).

(** What a run leaves behind: the console lines and the calls made to the
    remote service with their outcomes, both oldest first. *)
Record State : Type := mkState {
  console : list (Level * list LogArg);
  network : list (Request.t * FetchResult)
}.

(** ** Effects: state passing with exceptions

    A statement maps the state before it to a completion and the state after
    it; whatever was printed or sent before an exception stays. *)

Definition M (A : Type) : Type := State -> JS.completion A * State.

#[global] Instance M_ret : MRet M := fun A a st => (JS.Normal a, st).

#[global] Instance M_bind : MBind M := fun A B f m st =>
  match m st with
  | (JS.Normal a, st') => f a st'
  | (JS.Throw e, st') => (JS.Throw e, st')
  end.

Definition throw {A : Type} (e : JS.exn) : M A := fun st => (JS.Throw e, st).

Definition lift {A : Type} (c : JS.completion A) : M A := fun st => (c, st).

(** [try { m } catch (e) { h e }] *)
Definition try_catch {A : Type} (m : M A) (h : JS.exn -> M A) : M A := fun st =>
  match m st with
  | (JS.Throw (JS.ProcessExit code), st') => (JS.Throw (JS.ProcessExit code), st')
  | (JS.Throw e, st') => h e st'
  | (JS.Normal a, st') => (JS.Normal a, st')
  end.

(** [console.log], [console.debug], [console.warn], [console.error] *)
Definition console_write (level : Level) (args : list LogArg) : M unit := fun st =>
  (JS.Normal tt, {| console := console st ++ [(level, args)]; network := network st |}).

(** [array.map(f)] with a callback that has effects. *)
Fixpoint mapM {A B : Type} (f : A -> M B) (l : list A) : M (list B) :=
  match l with
  | [] => mret []
  | a :: l' => b ← f a; bs ← mapM f l'; mret (b :: bs)
  end.

(** ** The program *)

Definition newline : string := String (ascii_of_nat 10) "".
Definition dquote : string := String (ascii_of_nat 34) "".

(** [const allureStatusToOutcome = (status: string | undefined): string] *)
Definition allureStatusToOutcome (status : option string) : string :=
  match status with
  | None => "Blocked"
  | Some status =>
      if String.eqb status "passed" then "Passed"
      else if String.eqb status "skipped" then "Skipped"
      else "Failed"
  end.

(** [value ? (new Date(value)).toISOString() : null], at a time stamp of a
    report, as the program calls it. *)
Definition convertAllureTimestamp (value : option Z) : JS.completion (option string) :=
  if JS.truthy_num value then
    match Date.toISOString (JS.nullish value 0) with
    | Some iso => JS.Normal (Some iso)
    | None => JS.Throw (JS.RangeError "Invalid time value")
    end
  else JS.Normal None.

(** The same function at any value of its parameter type
    [number | undefined]: [toISOString] throws on an invalid date. *)
Definition convertAllureTimestamp_number (value : option JS.number)
  : JS.completion (option string) :=
  if JS.truthy_number value then
    match Date.toISOString_number (JS.nullish value (JS.int 0)) with
    | Some iso => JS.Normal (Some iso)
    | None => JS.Throw (JS.RangeError "Invalid time value")
    end
  else JS.Normal None.

(** The expression [x.start && x.stop ? (x.stop - x.start) : 0], which the
    source writes out for a step and, twice, for a test record. *)
Definition duration_of (start stop : option Z) : Z :=
  if JS.truthy_num start && JS.truthy_num stop
  then JS.sub (JS.nullish stop 0) (JS.nullish start 0)
  else 0.

(** What the specification says of the same expression: the difference of
    the two integers. *)
Definition duration_exact (start stop : option Z) : Z :=
  if JS.truthy_num start && JS.truthy_num stop
  then JS.nullish stop 0 - JS.nullish start 0
  else 0.

(** Both time stamps and their difference are safe integers, so that no
    rounding takes place. *)
Definition safe_times (start stop : option Z) : bool :=
  JS.isSafeInteger (JS.nullish start 0) &&
  JS.isSafeInteger (JS.nullish stop 0) &&
  JS.isSafeInteger (JS.nullish stop 0 - JS.nullish start 0).

Definition apiAuthHeaders (args : Args.t) : list (string * string) :=
  JS.fromEntries [("Authorization", "PrivateToken " +:+ Args.token args)].

(** Placing a [string | null] into a body. *)
Definition of_nullable (s : option string) : JS.value :=
  match s with
  | Some s => JS.Str s
  | None => JS.Null
  end.

Fixpoint StepSpec_to_js (spec : StepSpec.t) : JS.value :=
  JS.Obj (JS.fromEntries
    [("title", JS.Str (StepSpec.title spec));
     ("steps", JS.Arr (map StepSpec_to_js (StepSpec.steps spec)))]).

Definition AttachRef_to_js (ref : AttachRef.t) : JS.value :=
  JS.Obj (JS.fromEntries [("id", AttachRef.id ref)]).

Fixpoint StepResult_to_js (result : StepResult.t) : JS.value :=
  JS.Obj (JS.fromEntries
    [("title", JS.Str (StepResult.title result));
     ("stepResults", JS.Arr (map StepResult_to_js (StepResult.stepResults result)));
     ("outcome", JS.Str (StepResult.outcome result));
     ("duration", JS.Num (StepResult.duration result));
     ("parameters",
       JS.Obj (map (fun p => (fst p, JS.Str (snd p))) (StepResult.parameters result)));
     ("attachments", JS.Arr (map AttachRef_to_js (StepResult.attachments result)))]).

Section Program.
Context (env : Env.t).

(** *** File system and network primitives *)

Definition existsSync (path : string) : bool :=
  match Env.fs env !! path with
  | Some _ => true
  | None => false
  end.

(** [fs.readFileSync(path, 'utf-8')] and [fs.promises.readFile(path)] *)
Definition readFile (path : string) : M string :=
  match Env.fs env !! path with
  | Some (File content) => mret content
  | Some (Directory _) => throw (JS.SystemError "EISDIR" path)
  | None => throw (JS.SystemError "ENOENT" path)
  end.

Definition readdirSync (path : string) : M (list string) :=
  match Env.fs env !! path with
  | Some (Directory entries) => mret entries
  | Some (File _) => throw (JS.SystemError "ENOTDIR" path)
  | None => throw (JS.SystemError "ENOENT" path)
  end.

(** [fetch(url, init)]: the call and its outcome are recorded. *)
Definition fetch (request : Request.t) : M Response.t := fun st =>
  let result := Env.fetch env (network st) request in
  let st' := {| console := console st; network := network st ++ [(request, result)] |} in
  match result with
  | Responded resp => (JS.Normal resp, st')
  | Rejected reason => (JS.Throw (JS.FetchError reason), st')
  end.

(** [resp.json()]: on a text that is not JSON the library rejects with a
    [FetchError] of its own that names the URL (and then the reason that
    [JSON.parse] gave, which is the platform's wording). *)
Definition Response_json (resp : Response.t) : M JS.value :=
  match Response.json resp with
  | Some v => mret v
  | None => throw (JS.FetchError ("invalid json response body at " +:+ Response.url resp))
  end.

(** *** API calls *)

Definition apiEnsureStatus (resp : Response.t) : M unit :=
  if negb (Response.ok resp) then
    let errorText := Response.text resp in
    console_write error
      [Text ("API Error: " +:+ pretty (Response.status resp) +:+ " " +:+
             Response.statusText resp +:+ " for " +:+ Response.url resp)];;
    console_write error [Text errorText];;
    throw (JS.Error ("API returned " +:+ pretty (Response.status resp)))
  else mret tt.

Definition invokeApi (args : Args.t) (method relUrl : string) (body : JS.value)
  : M JS.value :=
  let url := Args.url args +:+ relUrl in
  console_write debug [Text ("API call: " +:+ method +:+ " " +:+ url)];;
  resp ← fetch {| Request.method := method;
                  Request.url := url;
                  Request.headers :=
                    JS.set "Content-Type" "application/json" (apiAuthHeaders args);
                  Request.body := Json body |};
  apiEnsureStatus resp;;
  if Response.status resp =? 204 then mret JS.Null
  else Response_json resp.

Definition invokeApiAttachementUpload (args : Args.t) (name : string)
  (attachBuffer : string) (contentType : string) : M JS.value :=
  resp ← fetch {| Request.method := "POST";
                  Request.url := Args.url args +:+ "api/v2/attachments";
                  Request.headers := apiAuthHeaders args;
                  Request.body := Multipart name attachBuffer contentType |};
  apiEnsureStatus resp;;
  Response_json resp.

(** *** Attachments *)

(** The [for (const attach of allureAttachments)] loop, with the array
    [attachRefs] it pushes onto. *)
Fixpoint uploadAllureAttachments_loop (args : Args.t)
  (allureAttachments : list Attachment.t) (attachRefs : list AttachRef.t)
  : M (list AttachRef.t) :=
  match allureAttachments with
  | [] => mret attachRefs
  | attach :: rest =>
      let filePath := Env.path_join env (Args.inputDir args) (Attachment.source attach) in
      if negb (existsSync filePath) then
        console_write warn [Text ("Attachment file not found: " +:+ filePath)];;
        uploadAllureAttachments_loop args rest attachRefs
      else
        attachBuffer ← readFile filePath;
        if (String.length attachBuffer =? 0)%nat then
          console_write warn [Text ("Empty attachment: " +:+ filePath)];;
          uploadAllureAttachments_loop args rest attachRefs
        else
          console_write log [Text ("Uploading attachment: " +:+ Attachment.source attach)];;
          resp ← invokeApiAttachementUpload args (Attachment.source attach)
                   attachBuffer (Attachment.type attach);
          id ← lift (JS.member resp "id");
          uploadAllureAttachments_loop args rest (attachRefs ++ [AttachRef.mk id])
  end.

Definition uploadAllureAttachments (args : Args.t)
  (allureAttachments : list Attachment.t) : M (list AttachRef.t) :=
  uploadAllureAttachments_loop args allureAttachments [].

(** *** Steps *)

(** The [for (const allureStep of allureSteps)] loop, with the arrays
    [stepSpecs] and [stepResults] it pushes onto; [body] is what the loop does
    with a step that has a name. *)
Section StepsLoop.
Context (body : AllureStep.t -> M (StepSpec.t * StepResult.t)).

Fixpoint processAllureSteps_loop (allureSteps : list AllureStep.t)
  (stepSpecs : list StepSpec.t) (stepResults : list StepResult.t)
  : M (list StepSpec.t * list StepResult.t) :=
  match allureSteps with
  | [] => mret (stepSpecs, stepResults)
  | allureStep :: rest =>
      if negb (JS.truthy_str (AllureStep.name allureStep)) then
        processAllureSteps_loop rest stepSpecs stepResults
      else
        '(stepSpec, stepResult) ← body allureStep;
        processAllureSteps_loop rest (stepSpecs ++ [stepSpec]) (stepResults ++ [stepResult])
  end.
End StepsLoop.

(** The body of the loop for a step that has a name: the nested steps are
    translated first, then the attachments of the step are uploaded. *)
Fixpoint processAllureStep (args : Args.t) (allureStep : AllureStep.t)
  : M (StepSpec.t * StepResult.t) :=
  '(innerSpecs, innerResults) ←
    match AllureStep.steps allureStep with
    | Some inner => processAllureSteps_loop (processAllureStep args) inner [] []
    | None => mret ([], [])
    end;
  let title := JS.nullish (AllureStep.name allureStep) "" in
  let stepSpec := {| StepSpec.title := title; StepSpec.steps := innerSpecs |} in
  attachments ← uploadAllureAttachments args
                  (JS.nullish (AllureStep.attachments allureStep) []);
  let stepResult :=
    {| StepResult.title := title;
       StepResult.stepResults := innerResults;
       StepResult.outcome := allureStatusToOutcome (AllureStep.status allureStep);
       StepResult.duration :=
         duration_of (AllureStep.start allureStep) (AllureStep.stop allureStep);
       StepResult.parameters :=
         JS.fromEntries
           (map (fun param => (NameValue.name param, NameValue.value param))
                (JS.nullish (AllureStep.parameters allureStep) []));
       StepResult.attachments := attachments |} in
  mret (stepSpec, stepResult).

Definition processAllureSteps (args : Args.t) (allureSteps : list AllureStep.t)
  : M (list StepSpec.t * list StepResult.t) :=
  processAllureSteps_loop (processAllureStep args) allureSteps [] [].

(** *** Loading the report files *)

(** The callback of [.map(name => ...)]: the parsed file, or [null] when the
    file cannot be read or parsed. *)
Definition parseResultFile (dir name : string) : M (option AllureResult.t) :=
  let filePath := Env.path_join env dir name in
  try_catch
    (fileContent ← readFile filePath;
     match Env.JSON_parse env fileContent with
     | Parsed record => mret record
     | Malformed message => throw (JS.SyntaxError message)
     end)
    (fun e =>
       console_write error [Text ("Error parsing file " +:+ filePath +:+ ":"); Caught e];;
       mret None).

(** The comparator [(it1, it2) => (it1.start ?? 0) - (it2.start ?? 0)] *)
Definition compareByStart (it1 it2 : AllureResult.t) : Z :=
  JS.nullish (AllureResult.start it1) 0 - JS.nullish (AllureResult.start it2) 0.

Definition loadAllureResults (dir : string) : M (list (string * AllureResult.t)) :=
  if negb (existsSync dir) then
    throw (JS.Error ("Directory not found: " +:+ dir))
  else
    dirEntries ← readdirSync dir;
    parsed ← mapM (parseResultFile dir)
               (filter (fun name => JS.endsWith name "-result.json") dirEntries);
    let resultFiles := omap id parsed in
    if (length resultFiles =? 0)%nat then
      throw (JS.Error ("No Allure result files found in " +:+ dir))
    else
      let resultFiles := JS.sort compareByStart resultFiles in
      mret (JS.fromEntries (map (fun it => (AllureResult.historyId it, it)) resultFiles)).

(** *** Command line *)

Definition usage : list string :=
  ["Usage: ts-node allure2testit-cli.ts <inputDir> <url> <token> <projectId> <configurationId> <testRunName>";
   "Example:";
   "ts-node allure2testit-cli.ts ./allure-results https://testit.example/ myPrivateToken 123e4567-e89b-12d3-a456-426614174000 987e6543-e21b-43d3-b456-426614174000 "
     +:+ dquote +:+ "Test Run 1" +:+ dquote].

(** [parseArgs], reading [process.argv]. *)
Definition parseArgs (argv : list string) : M Args.t :=
  match drop 2 argv with
  | a0 :: a1 :: a2 :: a3 :: a4 :: a5 :: _ =>
      mret {| Args.inputDir := Env.path_resolve env a0;
              Args.url := if JS.endsWith a1 "/" then a1 else a1 +:+ "/";
              Args.token := a2;
              Args.projectId := a3;
              Args.configurationId := a4;
              Args.testRunName := a5 |}
  | _ =>
      mapM (fun line => console_write error [Text line]) usage;;
      throw (JS.ProcessExit 1)
  end.

(** *** The import *)

(** [const autotestData = { externalId: ..., ..., namespace: labelObj.package }] *)
Definition autotestData (args : Args.t) (testResult : AllureResult.t)
  (stepSpecs : list StepSpec.t) : list (string * JS.value) :=
  let labelObj :=
    JS.fromEntries (map (fun it => (NameValue.name it, NameValue.value it))
                        (JS.nullish (AllureResult.labels testResult) [])) in
  JS.fromEntries
    [("externalId", JS.Str (AllureResult.historyId testResult));
     ("projectId", JS.Str (Args.projectId args));
     ("name", JS.Str (AllureResult.name testResult));
     ("steps", JS.Arr (map StepSpec_to_js stepSpecs));
     ("classname", JS.of_optional (JS.get "testClass" labelObj));
     ("namespace", JS.of_optional (JS.get "package" labelObj))].

(** The body of the [PUT]: [{ id: autotestMatches[0].id, ...autotestData }] *)
Definition updateBody (id : JS.value) (data : list (string * JS.value)) : JS.value :=
  JS.Obj (JS.fromEntries ([("id", id)] ++ data)).

(** The body of the [POST] that creates an autotest. *)
Definition createBody (args : Args.t) (testResult : AllureResult.t)
  (data : list (string * JS.value)) (stepResults : list StepResult.t) : M JS.value :=
  let duration :=
    duration_of (AllureResult.start testResult) (AllureResult.stop testResult) in
  startedOn ← lift (convertAllureTimestamp (AllureResult.start testResult));
  completedOn ← lift (convertAllureTimestamp (AllureResult.stop testResult));
  mret (JS.Obj (JS.fromEntries
    ([("configurationId", JS.Str (Args.configurationId args))] ++ data ++
     [("duration", JS.Num duration);
      ("startedOn", of_nullable startedOn);
      ("completedOn", of_nullable completedOn);
      ("outcome", JS.Str (allureStatusToOutcome (AllureResult.status testResult)));
      ("stepResults", JS.Arr (map StepResult_to_js stepResults))]))).

(** The body of the [POST] that appends the result to the test run. *)
Definition testResultBody (args : Args.t) (testResult : AllureResult.t)
  (stepResults : list StepResult.t) : M JS.value :=
  let duration :=
    duration_of (AllureResult.start testResult) (AllureResult.stop testResult) in
  startedOn ← lift (convertAllureTimestamp (AllureResult.start testResult));
  completedOn ← lift (convertAllureTimestamp (AllureResult.stop testResult));
  attachments ← uploadAllureAttachments args
                  (JS.nullish (AllureResult.attachments testResult) []);
  statusDetails ←
    match AllureResult.statusDetails testResult with
    | Some details => mret details
    | None => throw (JS.TypeError "Cannot read properties of undefined")
    end;
  mret (JS.Arr [JS.Obj (JS.fromEntries
    [("configurationId", JS.Str (Args.configurationId args));
     ("autoTestExternalId", JS.Str (AllureResult.historyId testResult));
     ("duration", JS.Num duration);
     ("startedOn", of_nullable startedOn);
     ("completedOn", of_nullable completedOn);
     ("outcome", JS.Str (allureStatusToOutcome (AllureResult.status testResult)));
     ("stepResults", JS.Arr (map StepResult_to_js stepResults));
     ("attachments", JS.Arr (map AttachRef_to_js attachments));
     ("message", JS.of_optional (StatusDetails.message statusDetails));
     ("trace", JS.of_optional (StatusDetails.trace statusDetails))])]).

(** The [if (autotestMatches.length) { ... } else { ... }] statement: the
    autotest is updated when the search found it and created otherwise. *)
Definition upsertAutotest (args : Args.t) (testResult : AllureResult.t)
  (autotestMatches : JS.value) (data : list (string * JS.value))
  (stepResults : list StepResult.t) : M JS.value :=
  matches ← lift (JS.member autotestMatches "length");
  if JS.truthy matches then
    first ← lift (JS.member autotestMatches "0");
    id ← lift (JS.member first "id");
    console_write log [Text ("Updating existing autotest (ID: " +:+ JS.to_string id +:+ ")")];;
    invokeApi args "PUT" "api/v2/autoTests" (updateBody id data)
  else
    console_write log [Text "Creating new autotest"];;
    body ← createBody args testResult data stepResults;
    invokeApi args "POST" "api/v2/autoTests" body.

(** The body of the loop over the loaded test records. *)
Definition importTestResult (args : Args.t) (testRunId : JS.value) (total : nat)
  (index : nat) (testResult : AllureResult.t) : M unit :=
  console_write log
    [Text (newline +:+ "Processing test " +:+ pretty (Z.of_nat index + 1) +:+ "/" +:+
           pretty (Z.of_nat total) +:+ ": " +:+ AllureResult.name testResult)];;
  autotestMatches ← invokeApi args "POST" "api/v2/autoTests/search"
    (JS.Obj (JS.fromEntries
      [("filter", JS.Obj (JS.fromEntries
         [("isDeleted", JS.Bool false);
          ("projectIds", JS.Arr [JS.Str (Args.projectId args)]);
          ("externalIds", JS.Arr [JS.Str (AllureResult.historyId testResult)])]))]));
  '(stepSpecs, stepResults) ←
    processAllureSteps args (JS.nullish (AllureResult.steps testResult) []);
  let data := autotestData args testResult stepSpecs in
  upsertAutotest args testResult autotestMatches data stepResults;;
  console_write log [Text "Adding test result to test run"];;
  body ← testResultBody args testResult stepResults;
  invokeApi args "POST"
    ("api/v2/testRuns/" +:+ JS.to_string testRunId +:+ "/testResults") body;;
  mret tt.

(** [for (const [index, testResult] of Object.entries(Object.values(...)))] *)
Fixpoint importTestResults (args : Args.t) (testRunId : JS.value) (total : nat)
  (index : nat) (testResults : list AllureResult.t) : M unit :=
  match testResults with
  | [] => mret tt
  | testResult :: rest =>
      importTestResult args testRunId total index testResult;;
      importTestResults args testRunId total (S index) rest
  end.

Definition runImport (args : Args.t) : M unit :=
  console_write log [Text "Starting import with parameters:"];;
  console_write log [Text ("- Input directory: " +:+ Args.inputDir args)];;
  console_write log [Text ("- TestIT URL: " +:+ Args.url args)];;
  console_write log [Text ("- Project ID: " +:+ Args.projectId args)];;
  console_write log [Text ("- Configuration ID: " +:+ Args.configurationId args)];;
  console_write log [Text ("- Test Run Name: " +:+ Args.testRunName args)];;
  results ← loadAllureResults (Args.inputDir args);
  let total := length (JS.keys results) in
  console_write log [Text ("Found " +:+ pretty (Z.of_nat total) +:+ " test results")];;
  let runBody :=
    JS.Obj (JS.fromEntries
      [("projectId", JS.Str (Args.projectId args));
       ("name", JS.Str (Args.testRunName args))]) in
  existingTestRun ← invokeApi args "POST" "api/v2/testRuns/search" runBody;
  matchingTestRun ← lift (JS.find existingTestRun (fun run =>
    match JS.member run "name" with
    | JS.Normal name => JS.Normal (JS.strict_eq_str name (Args.testRunName args))
    | JS.Throw e => JS.Throw e
    end));
  testRunId ←
    (if JS.truthy matchingTestRun then
       testRunId ← lift (JS.member matchingTestRun "id");
       console_write log
         [Text ("Using existing test run with ID: " +:+ JS.to_string testRunId)];;
       mret testRunId
     else
       console_write log [Text "Creating new test run"];;
       testRunResp ← invokeApi args "POST" "api/v2/testRuns" runBody;
       testRunId ← lift (JS.member testRunResp "id");
       console_write log [Text ("Created test run with ID: " +:+ JS.to_string testRunId)];;
       mret testRunId);
  importTestResults args testRunId total 0 (JS.values results).

(** [main]: the exit code of the process and what it left behind. *)
Definition main (argv : list string) (st : State) : Z * State :=
  let run :=
    try_catch
      (args ← parseArgs argv;
       runImport args;;
       console_write log [Text "Import completed successfully"];;
       (throw (JS.ProcessExit 0) : M unit))
      (fun e =>
         console_write error [Text "Error:"; Caught e];;
         throw (JS.ProcessExit 1)) in
  match run st with
  | (JS.Throw (JS.ProcessExit code), st') => (code, st')
  | (_, st') => (0, st')
  end.
End Program.

Definition initial : State := {| console := []; network := [] |}.

(** ** Notions used to state the properties *)

(** Where the file of an attachment descriptor is looked for. *)
Definition attachmentPath (env : Env.t) (args : Args.t) (attach : Attachment.t) : string :=
  Env.path_join env (Args.inputDir args) (Attachment.source attach).

(** The resolved file of the descriptor exists and has a non-zero length. *)
Definition uploadable (env : Env.t) (args : Args.t) (attach : Attachment.t) : bool :=
  match Env.fs env !! attachmentPath env args attach with
  | Some (File content) => negb (String.length content =? 0)%nat
  | _ => false
  end.

(** The resolved file of the descriptor is missing or has zero bytes. *)
Definition missing_or_empty (env : Env.t) (args : Args.t) (attach : Attachment.t) : bool :=
  match Env.fs env !! attachmentPath env args attach with
  | None => true
  | Some (File content) => (String.length content =? 0)%nat
  | Some (Directory _) => false
  end.

(** The warning printed for a descriptor that is passed over. *)
Definition skipWarning (env : Env.t) (args : Args.t) (attach : Attachment.t)
  : Level * list LogArg :=
  match Env.fs env !! attachmentPath env args attach with
  | None => (warn, [Text ("Attachment file not found: " +:+ attachmentPath env args attach)])
  | Some _ => (warn, [Text ("Empty attachment: " +:+ attachmentPath env args attach)])
  end.

Definition is_warning (line : Level * list LogArg) : bool :=
  match fst line with
  | warn => true
  | _ => false
  end.

(** The upload request for a descriptor whose file holds [content]. *)
Definition uploadRequest (args : Args.t) (attach : Attachment.t) (content : string)
  : Request.t :=
  {| Request.method := "POST";
     Request.url := Args.url args +:+ "api/v2/attachments";
     Request.headers := apiAuthHeaders args;
     Request.body := Multipart (Attachment.source attach) content (Attachment.type attach) |}.

(** [uploaded env args attach exchange ref]: [exchange] is the upload of the
    file of [attach], answered with success, and [ref] holds the [id] of the
    answer. *)
Definition uploaded (env : Env.t) (args : Args.t) (attach : Attachment.t)
  (exchange : Request.t * FetchResult) (ref : AttachRef.t) : Prop :=
  exists content resp answer,
    Env.fs env !! attachmentPath env args attach = Some (File content) /\
    exchange = (uploadRequest args attach content, Responded resp) /\
    Response.ok resp = true /\
    Response.json resp = Some answer /\
    JS.member answer "id" = JS.Normal (AttachRef.id ref).

(** A call to the remote service that was answered with a 2xx status. *)
Definition succeeded (exchange : Request.t * FetchResult) : bool :=
  match snd exchange with
  | Responded resp => Response.ok resp
  | Rejected _ => false
  end.

(** What is thrown by the program itself, as opposed to [process.exit]. *)
Definition is_exception (e : JS.exn) : bool :=
  match e with
  | JS.ProcessExit _ => false
  | _ => true
  end.

(** Two statements that, started with the same calls made so far, end with
    the same completion and the same calls made; the console is left out of
    the comparison. *)
Definition sim {A : Type} (m1 m2 : M A) : Prop :=
  forall st1 st2, network st1 = network st2 ->
    fst (m1 st1) = fst (m2 st2) /\ network (snd (m1 st1)) = network (snd (m2 st2)).

(** ** A small world to run the program in *)

Module Example.

Definition step1 : AllureStep.t :=
  {| AllureStep.name := Some "Step 1";
     AllureStep.steps := None;
     AllureStep.attachments :=
       Some [Attachment.mk "gone.png" "image/png";
             Attachment.mk "shot.png" "image/png";
             Attachment.mk "empty.png" "image/png"];
     AllureStep.parameters := Some [];
     AllureStep.status := Some "passed";
     AllureStep.start := Some 1000;
     AllureStep.stop := Some 1500 |}.

(** A step without a name, with a named step below it. *)
Definition unnamed : AllureStep.t :=
  {| AllureStep.name := Some "";
     AllureStep.steps := Some [step1];
     AllureStep.attachments := Some [Attachment.mk "shot.png" "image/png"];
     AllureStep.parameters := None;
     AllureStep.status := None;
     AllureStep.start := None;
     AllureStep.stop := None |}.

Definition testA : AllureResult.t :=
  {| AllureResult.historyId := "h1";
     AllureResult.name := "Test A";
     AllureResult.steps := Some [step1; unnamed];
     AllureResult.labels := None;
     AllureResult.start := Some 1000;
     AllureResult.stop := Some 2000;
     AllureResult.status := Some "passed";
     AllureResult.attachments := None;
     AllureResult.statusDetails := Some (StatusDetails.mk (Some "") (Some "")) |}.

(** An earlier run of the same test. *)
Definition testA_earlier : AllureResult.t :=
  {| AllureResult.historyId := "h1";
     AllureResult.name := "Test A (earlier)";
     AllureResult.steps := None;
     AllureResult.labels := None;
     AllureResult.start := Some 500;
     AllureResult.stop := Some 700;
     AllureResult.status := Some "failed";
     AllureResult.attachments := None;
     AllureResult.statusDetails := Some (StatusDetails.mk (Some "boom") None) |}.

Definition answer (status : Z) (body : JS.value) : FetchResult :=
  Responded {| Response.status := status;
               Response.statusText := "";
               Response.url := "";
               Response.text := "";
               Response.json := Some body |}.

(** A service that knows no run and no autotest and accepts everything. *)
Definition service (history : list (Request.t * FetchResult)) (request : Request.t)
  : FetchResult :=
  if JS.endsWith (Request.url request) "/search" then answer 200 (JS.Arr [])
  else answer 200 (JS.Obj [("id", JS.Str "id-1")]).

Definition env : Env.t :=
  {| Env.fs :=
       {[ "/in" := Directory ["a-result.json"; "notes.txt"; "c-result.json"; "d-result.json"];
          "/in/a-result.json" := File "A";
          "/in/c-result.json" := File "{";
          "/in/d-result.json" := File "D";
          "/in/shot.png" := File "PNG";
          "/in/empty.png" := File "" ]};
     Env.path_resolve := fun p => p;
     Env.path_join := fun dir name => dir +:+ "/" +:+ name;
     Env.JSON_parse := fun text =>
       if String.eqb text "A" then Parsed (Some testA)
       else if String.eqb text "D" then Parsed (Some testA_earlier)
       else Malformed "Unexpected end of JSON input";
     Env.fetch := service |}.

Definition args : Args.t :=
  {| Args.inputDir := "/in";
     Args.url := "https://testit.example/";
     Args.token := "secret";
     Args.projectId := "P";
     Args.configurationId := "C";
     Args.testRunName := "Run" |}.

End Example.

(** The request that [invokeApi] sends. *)
Definition apiRequest (args : Args.t) (method relUrl : string) (body : JS.value)
  : Request.t :=
  {| Request.method := method;
     Request.url := Args.url args +:+ relUrl;
     Request.headers := JS.set "Content-Type" "application/json" (apiAuthHeaders args);
     Request.body := Json body |}.




(** A statement that leaves the remote service alone. *)
Definition offline {A : Type} (m : M A) : Prop :=
  forall st, network (snd (m st)) = network st.

(** [orderly res calls]: the calls made by a statement that completed with
    [res] all succeeded, or all but the last succeeded and the statement
    threw. *)
Definition orderly {A : Type} (res : JS.completion A)
  (calls : list (Request.t * FetchResult)) : Prop :=
  Forall (fun call => succeeded call = true) calls \/
  exists e done call,
    res = JS.Throw e /\ is_exception e = true /\
    calls = done ++ [call] /\
    Forall (fun call => succeeded call = true) done /\
    succeeded call = false.

(** A statement that stops at the first call that fails. *)
Definition aborting {A : Type} (m : M A) : Prop :=
  forall st, exists calls,
    network (snd (m st)) = network st ++ calls /\ orderly (fst (m st)) calls.

(** The same world with a service whose autotest search is down. *)
Module Outage.

Definition service (history : list (Request.t * FetchResult)) (request : Request.t)
  : FetchResult :=
  if JS.endsWith (Request.url request) "autoTests/search" then
    Responded {| Response.status := 503;
                 Response.statusText := "Service Unavailable";
                 Response.url := Request.url request;
                 Response.text := "down";
                 Response.json := None |}
  else Example.service history request.

Definition env : Env.t :=
  {| Env.fs := Env.fs Example.env;
     Env.path_resolve := Env.path_resolve Example.env;
     Env.path_join := Env.path_join Example.env;
     Env.JSON_parse := Env.JSON_parse Example.env;
     Env.fetch := service |}.

Definition argv : list string :=
  ["node"; "allure2testit-cli.js"; "/in"; "https://testit.example"; "secret"; "P"; "C"; "Run"].

(** The call that fails, and the answer to it. *)
Definition failed_request : Request.t :=
  {| Request.method := "POST";
     Request.url := "https://testit.example/api/v2/autoTests/search";
     Request.headers :=
       [("Authorization", "PrivateToken secret"); ("Content-Type", "application/json")];
     Request.body :=
       Json (JS.Obj [("filter",
                      JS.Obj [("isDeleted", JS.Bool false);
                              ("projectIds", JS.Arr [JS.Str "P"]);
                              ("externalIds", JS.Arr [JS.Str "h1"])])]) |}.

Definition failed_response : Response.t :=
  {| Response.status := 503;
     Response.statusText := "Service Unavailable";
     Response.url := "https://testit.example/api/v2/autoTests/search";
     Response.text := "down";
     Response.json := None |}.

End Outage.

(** The value that the last entry with key [k] gives, if there is one. *)
Fixpoint find_last {V : Type} (k : string) (entries : list (string * V)) : option V :=
  match entries with
  | [] => None
  | e :: entries' =>
      match find_last k entries' with
      | Some v => Some v
      | None => if String.eqb k (fst e) then Some (snd e) else None
      end
  end.

(** The last element of a list that satisfies [p]. *)
Fixpoint find_last_by {A : Type} (p : A -> bool) (l : list A) : option A :=
  match l with
  | [] => None
  | x :: l' =>
      match find_last_by p l' with
      | Some w => Some w
      | None => if p x then Some x else None
      end
  end.

(** What [loadAllureResults] makes of one directory entry: the record in the
    file, if the file can be read and parsed. *)
Definition parseableFile (env : Env.t) (dir name : string) : option AllureResult.t :=
  match Env.fs env !! Env.path_join env dir name with
  | Some (File content) =>
      match Env.JSON_parse env content with
      | Parsed record => record
      | Malformed _ => None
      end
  | _ => None
  end.

(** The records of the parseable result files of a directory, in the order in
    which the file system enumerates the files. *)
Definition resultFilesOf (env : Env.t) (dir : string) : list AllureResult.t :=
  match Env.fs env !! dir with
  | Some (Directory entries) =>
      omap (parseableFile env dir)
           (filter (fun name => JS.endsWith name "-result.json") entries)
  | _ => []
  end.

(** The sort key of a record: its [start], or 0. *)
Definition startOf (it : AllureResult.t) : Z := JS.nullish (AllureResult.start it) 0.

(** A remote service that answers every call with a 2xx status and a JSON
    value other than [null]. *)
Definition accepting (env : Env.t) : Prop :=
  forall history request, exists resp answer,
    Env.fetch env history request = Responded resp /\
    Response.ok resp = true /\
    Response.json resp = Some answer /\
    answer <> JS.Undefined /\ answer <> JS.Null.

(** A file system in which no attachment of the input directory resolves to a
    directory. *)
Definition plain_attachments (env : Env.t) (args : Args.t) : Prop :=
  forall attach entries,
    Env.fs env !! attachmentPath env args attach <> Some (Directory entries).

(** ** Notions used for the further properties *)

(** What goes wrong when a result file is read and parsed, if anything. *)
Definition parseFailure (env : Env.t) (dir name : string) : option JS.exn :=
  match Env.fs env !! Env.path_join env dir name with
  | Some (File content) =>
      match Env.JSON_parse env content with
      | Parsed _ => None
      | Malformed message => Some (JS.SyntaxError message)
      end
  | Some (Directory _) => Some (JS.SystemError "EISDIR" (Env.path_join env dir name))
  | None => Some (JS.SystemError "ENOENT" (Env.path_join env dir name))
  end.

(** The console line for a result file that cannot be used. *)
Definition parseFailureLine (env : Env.t) (dir name : string) (e : JS.exn)
  : Level * list LogArg :=
  (error, [Text ("Error parsing file " +:+ Env.path_join env dir name +:+ ":"); Caught e]).

(** The names of the directory entries that are taken for result files. *)
Definition resultFileNames (env : Env.t) (dir : string) : list string :=
  match Env.fs env !! dir with
  | Some (Directory entries) =>
      filter (fun name => JS.endsWith name "-result.json") entries
  | _ => []
  end.

(** The three lines printed for a command line that is too short. *)
Definition usageLines : list (Level * list LogArg) :=
  map (fun line => (error, [Text line])) usage.

(** A directory with two result files of different tests. *)
Module Nightly.

Definition login : AllureResult.t :=
  {| AllureResult.historyId := "a3f1";
     AllureResult.name := "Login";
     AllureResult.steps := None;
     AllureResult.labels :=
       Some [NameValue.mk "testClass" "Old"; NameValue.mk "package" "web.auth";
             NameValue.mk "testClass" "LoginTest"];
     AllureResult.start := Some 2000;
     AllureResult.stop := Some 2500;
     AllureResult.status := Some "passed";
     AllureResult.attachments := None;
     AllureResult.statusDetails := None |}.

Definition logout : AllureResult.t :=
  {| AllureResult.historyId := "b7c2";
     AllureResult.name := "Logout";
     AllureResult.steps := None;
     AllureResult.labels := None;
     AllureResult.start := Some 1000;
     AllureResult.stop := Some 1200;
     AllureResult.status := Some "broken";
     AllureResult.attachments := None;
     AllureResult.statusDetails := Some (StatusDetails.mk (Some "timeout") (Some "at line 3")) |}.

Definition env : Env.t :=
  {| Env.fs :=
       {[ "/nightly" := Directory ["login-result.json"; "logout-result.json"; "null-result.json"];
          "/nightly/login-result.json" := File "login";
          "/nightly/logout-result.json" := File "logout";
          "/nightly/null-result.json" := File "null" ]};
     Env.path_resolve := fun p => p;
     Env.path_join := fun dir name => dir +:+ "/" +:+ name;
     Env.JSON_parse := fun text =>
       if String.eqb text "login" then Parsed (Some login)
       else if String.eqb text "logout" then Parsed (Some logout)
       else if String.eqb text "null" then Parsed None
       else Malformed "Unexpected token";
     Env.fetch := Example.service |}.

End Nightly.

(** The example world with the network cable pulled. *)
Module Unplugged.

Definition env : Env.t :=
  {| Env.fs := Env.fs Example.env;
     Env.path_resolve := Env.path_resolve Example.env;
     Env.path_join := Env.path_join Example.env;
     Env.JSON_parse := Env.JSON_parse Example.env;
     Env.fetch := fun _ _ => Rejected "ECONNREFUSED" |}.

(** The first and only call: the search for the test run. *)
Definition request : Request.t :=
  {| Request.method := "POST";
     Request.url := "https://testit.example/api/v2/testRuns/search";
     Request.headers :=
       [("Authorization", "PrivateToken secret"); ("Content-Type", "application/json")];
     Request.body := Json (JS.Obj [("projectId", JS.Str "P"); ("name", JS.Str "Run")]) |}.

End Unplugged.

(** ** The translation of steps as a function

    What [processAllureSteps] computes, written without effects: the steps
    with a name are translated one by one, the others are left out. *)

Section Named.
Context {B : Type}.

(** [f] over the steps that have a name. *)
Fixpoint map_named (f : AllureStep.t -> B) (allureSteps : list AllureStep.t) : list B :=
  match allureSteps with
  | [] => []
  | allureStep :: rest =>
      if JS.truthy_str (AllureStep.name allureStep)
      then f allureStep :: map_named f rest
      else map_named f rest
  end.

(** The lists that [f] gives for the steps that have a name, in a row. *)
Fixpoint flat_named (f : AllureStep.t -> list B) (allureSteps : list AllureStep.t) : list B :=
  match allureSteps with
  | [] => []
  | allureStep :: rest =>
      if JS.truthy_str (AllureStep.name allureStep)
      then f allureStep ++ flat_named f rest
      else flat_named f rest
  end.
End Named.

(** The step spec of a step: its name and the specs of its named steps. *)
Fixpoint stepSpecOf (allureStep : AllureStep.t) : StepSpec.t :=
  {| StepSpec.title := JS.nullish (AllureStep.name allureStep) "";
     StepSpec.steps :=
       match AllureStep.steps allureStep with
       | Some inner => map_named stepSpecOf inner
       | None => []
       end |}.

(** The step result of a step, without the references to its attachments,
    which only the service can give. *)
Fixpoint stepResultOf (allureStep : AllureStep.t) : StepResult.t :=
  {| StepResult.title := JS.nullish (AllureStep.name allureStep) "";
     StepResult.stepResults :=
       match AllureStep.steps allureStep with
       | Some inner => map_named stepResultOf inner
       | None => []
       end;
     StepResult.outcome := allureStatusToOutcome (AllureStep.status allureStep);
     StepResult.duration :=
       duration_of (AllureStep.start allureStep) (AllureStep.stop allureStep);
     StepResult.parameters :=
       JS.fromEntries
         (map (fun param => (NameValue.name param, NameValue.value param))
              (JS.nullish (AllureStep.parameters allureStep) []));
     StepResult.attachments := [] |}.

(** A step result with the attachment references taken out, at every depth. *)
Fixpoint withoutAttachments (stepResult : StepResult.t) : StepResult.t :=
  {| StepResult.title := StepResult.title stepResult;
     StepResult.stepResults := map withoutAttachments (StepResult.stepResults stepResult);
     StepResult.outcome := StepResult.outcome stepResult;
     StepResult.duration := StepResult.duration stepResult;
     StepResult.parameters := StepResult.parameters stepResult;
     StepResult.attachments := [] |}.

(** The step spec with the shape of a step result. *)
Fixpoint specOfResult (stepResult : StepResult.t) : StepSpec.t :=
  {| StepSpec.title := StepResult.title stepResult;
     StepSpec.steps := map specOfResult (StepResult.stepResults stepResult) |}.

(** The attachment descriptors of a step in the order in which the
    translation comes to them: those of the named steps below it first, then
    its own. *)
Fixpoint stepAttachments (allureStep : AllureStep.t) : list Attachment.t :=
  match AllureStep.steps allureStep with
  | Some inner => flat_named stepAttachments inner
  | None => []
  end ++ JS.nullish (AllureStep.attachments allureStep) [].

(** A nest of steps: an unnamed step with attachments inside a named one. *)
Module Nested.

Definition hidden : AllureStep.t :=
  {| AllureStep.name := None;
     AllureStep.steps := Some [Example.step1];
     AllureStep.attachments := Some [Attachment.mk "shot.png" "image/png"];
     AllureStep.parameters := None;
     AllureStep.status := Some "passed";
     AllureStep.start := None;
     AllureStep.stop := None |}.

Definition inner : AllureStep.t :=
  {| AllureStep.name := Some "Open page";
     AllureStep.steps := None;
     AllureStep.attachments := Some [Attachment.mk "shot.png" "image/png"];
     AllureStep.parameters := Some [NameValue.mk "url" "/a"; NameValue.mk "url" "/b"];
     AllureStep.status := Some "broken";
     AllureStep.start := Some 1000;
     AllureStep.stop := Some 900 |}.

Definition outer : AllureStep.t :=
  {| AllureStep.name := Some "Scenario";
     AllureStep.steps := Some [hidden; inner];
     AllureStep.attachments :=
       Some [Attachment.mk "empty.png" "image/png"; Attachment.mk "shot.png" "text/plain"];
     AllureStep.parameters := None;
     AllureStep.status := None;
     AllureStep.start := Some 1000;
     AllureStep.stop := Some 3000 |}.

End Nested.

(** What the translation of one step has to give. *)
Definition translated (env : Env.t) (args : Args.t) (allureStep : AllureStep.t) : Prop :=
  forall st stepSpec stepResult st',
    processAllureStep env args allureStep st = (JS.Normal (stepSpec, stepResult), st') ->
    stepSpec = stepSpecOf allureStep /\
    withoutAttachments stepResult = stepResultOf allureStep /\
    stepSpec = specOfResult stepResult.

(** [exchange] is the upload of the file of [attach], answered with success. *)
Definition upload_of (env : Env.t) (args : Args.t) (attach : Attachment.t)
  (exchange : Request.t * FetchResult) : Prop :=
  exists ref, uploaded env args attach exchange ref.

(** The calls made for a step, when its translation returns, are the uploads
    of the attachments of [stepAttachments] whose files exist and are not
    empty, in that order. *)
Definition uploads_in_order (env : Env.t) (args : Args.t) (allureStep : AllureStep.t) : Prop :=
  forall st r st',
    processAllureStep env args allureStep st = (JS.Normal r, st') ->
    exists exchanges,
      network st' = network st ++ exchanges /\
      Forall2 (upload_of env args)
        (filter (fun a => uploadable env args a) (stepAttachments allureStep)) exchanges.

(** ** Counting calls *)

(** [at_most n p m]: of the calls that the statement [m] makes, at most [n]
    satisfy [p]. *)
Definition at_most (n : nat) (p : Request.t -> bool) {A : Type} (m : M A) : Prop :=
  forall st, exists calls,
    network (snd (m st)) = network st ++ calls /\
    (length (filter (fun call => p (fst call)) calls) <= n)%nat.

(** The call that creates a test run. *)
Definition creates_run (args : Args.t) (request : Request.t) : bool :=
  String.eqb (Request.method request) "POST" &&
  String.eqb (Request.url request) (Args.url args +:+ "api/v2/testRuns").

(** A request that carries the token and goes to a URL below the base URL. *)
Definition authorised (args : Args.t) (request : Request.t) : bool :=
  match JS.get "Authorization" (Request.headers request) with
  | Some v => String.eqb v ("PrivateToken " +:+ Args.token args)
  | None => false
  end &&
  String.prefix (Args.url args) (Request.url request).

(** The body of the two calls about the test run. *)
Definition runBody (args : Args.t) : JS.value :=
  JS.Obj (JS.fromEntries
    [("projectId", JS.Str (Args.projectId args));
     ("name", JS.Str (Args.testRunName args))]).


(** A service that already has the test run. *)
Module Rerun.

Definition service (history : list (Request.t * FetchResult)) (request : Request.t)
  : FetchResult :=
  if JS.endsWith (Request.url request) "testRuns/search" then
    Example.answer 200
      (JS.Arr [JS.Obj [("id", JS.Str "run-0"); ("name", JS.Str "Other")];
               JS.Obj [("id", JS.Str "run-7"); ("name", JS.Str "Run")]])
  else Example.service history request.

Definition env : Env.t :=
  {| Env.fs := Env.fs Example.env;
     Env.path_resolve := Env.path_resolve Example.env;
     Env.path_join := Env.path_join Example.env;
     Env.JSON_parse := Env.JSON_parse Example.env;
     Env.fetch := service |}.

End Rerun.

(** ** What is appended to the test run *)

(** The request is the [POST] that appends a result to the test run
    [testRunId]. *)
Definition is_append (args : Args.t) (testRunId : JS.value) (request : Request.t) : bool :=
  String.eqb (Request.method request) "POST" &&
  String.eqb (Request.url request)
    (Args.url args +:+ ("api/v2/testRuns/" +:+ JS.to_string testRunId +:+ "/testResults")).

(** The [autoTestExternalId] of the one result that such a request carries. *)
Definition appended (args : Args.t) (testRunId : JS.value) (request : Request.t)
  : option string :=
  if is_append args testRunId request then
    match Request.body request with
    | Json (JS.Arr [JS.Obj fields]) =>
        match JS.get "autoTestExternalId" fields with
        | Some (JS.Str externalId) => Some externalId
        | _ => None
        end
    | _ => None
    end
  else None.

(** A computation that returns has made calls of which [f] selects, in
    order, the list [l]. *)
Definition emits {A B : Type} (f : Request.t -> option B) (l : list B) (m : M A) : Prop :=
  forall st a st',
    m st = (JS.Normal a, st') ->
    exists calls,
      network st' = network st ++ calls /\
      omap (fun call => f (fst call)) calls = l.

(** * Properties *)

(** ** Dates *)

Module DateFacts.
Import Date.

Lemma day_of_era_bounds (doe : Z) :
  0 <= doe < 146097 ->
  let yoe := (doe - doe / 1460 + doe / 36524 - doe / 146096) / 365 in
  0 <= yoe <= 399 /\ 0 <= doe - (365 * yoe + yoe / 4 - yoe / 100) <= 365.
Proof.
  intros Hdoe yoe. subst yoe. Z.div_mod_to_equations. lia.
Qed.

Lemma civil_bounds (day y m d : Z) :
  civil day = (y, m, d) -> 1 <= m <= 12 /\ 1 <= d <= 31.
Proof.
  unfold civil.
  set (doe := (day + 719468) mod 146097).
  assert (Hdoe : 0 <= doe < 146097) by (apply Z.mod_pos_bound; lia).
  pose proof (day_of_era_bounds doe Hdoe) as Hb. cbv zeta in Hb.
  set (yoe := (doe - doe / 1460 + doe / 36524 - doe / 146096) / 365) in *.
  set (doy := doe - (365 * yoe + yoe / 4 - yoe / 100)) in *.
  set (mp := (5 * doy + 2) / 153).
  assert (Hmp : 0 <= mp <= 11) by (subst mp; Z.div_mod_to_equations; lia).
  intros H. injection H as _ Hm Hd. subst m d.
  split.
  - destruct (mp <? 10) eqn:E; [apply Z.ltb_lt in E | apply Z.ltb_ge in E]; lia.
  - subst mp. Z.div_mod_to_equations. lia.
Qed.

(** The only day that falls on 1970-01-01 is day 0. *)
Lemma civil_epoch (day : Z) : civil day = (1970, 1, 1) -> day = 0.
Proof.
  unfold civil.
  set (z := day + 719468).
  set (era := z / 146097).
  set (doe := z mod 146097).
  assert (Hdoe : 0 <= doe < 146097) by (apply Z.mod_pos_bound; lia).
  pose proof (day_of_era_bounds doe Hdoe) as Hb. cbv zeta in Hb.
  set (yoe := (doe - doe / 1460 + doe / 36524 - doe / 146096) / 365) in *.
  set (doy := doe - (365 * yoe + yoe / 4 - yoe / 100)) in *.
  set (mp := (5 * doy + 2) / 153).
  intros H.
  assert (Hmp0 : 0 <= mp <= 11) by (subst mp; Z.div_mod_to_equations; lia).
  destruct (mp <? 10) eqn:Hmp; [apply Z.ltb_lt in Hmp | apply Z.ltb_ge in Hmp].
  - replace (mp + 3 <=? 2) with false in H by (symmetry; apply Z.leb_gt; lia).
    injection H as Hy Hm Hd. lia.
  - replace (mp - 9 <=? 2) with true in H by (symmetry; apply Z.leb_le; lia).
    injection H as Hy Hm Hd.
    assert (Hmp10 : mp = 10) by lia.
    rewrite Hmp10 in Hd. change ((153 * 10 + 2) / 5) with 306 in Hd.
    assert (Hera : era = 4 /\ yoe = 369) by lia.
    destruct Hera as [He Hyo].
    assert (Hdoe' : doe = 135080).
    { subst doy. rewrite Hyo in Hd. change (369 / 4) with 92 in Hd.
      change (369 / 100) with 3 in Hd. lia. }
    subst doe era z. Z.div_mod_to_equations. lia.
Qed.

Lemma digit_char (n : Z) (c : ascii) :
  digit n = c -> n mod 10 = Z.of_N (N_of_ascii c) - 48.
Proof.
  intros <-. unfold digit.
  assert (0 <= n mod 10 < 10) by (apply Z.mod_pos_bound; lia).
  rewrite N_ascii_embedding; lia.
Qed.

(** Only the time value 0 prints as the epoch. *)
Lemma toISOString_epoch (t : Z) :
  toISOString t = Some epochString -> t = 0.
Proof.
  unfold toISOString, epochString.
  destruct (valid t); [|discriminate].
  destruct (civil (Day t)) as [[y m] d] eqn:Hcivil.
  intros H. injection H as H.
  unfold year_string in H.
  destruct ((0 <=? y) && (y <=? 9999)) eqn:Hy.
  2:{ destruct (0 <=? y); cbv [String.append] in H; discriminate. }
  cbv [pad String.append] in H.
  repeat match goal with
         | E : String _ _ = String _ _ |- _ => injection E; clear E; intros
         end.
  repeat match goal with
         | E : digit _ = _ |- _ => apply digit_char in E; cbn in E
         end.
  apply andb_prop in Hy as [Hy0 Hy1].
  apply Z.leb_le in Hy0, Hy1.
  assert (y = 1970) by (Z.div_mod_to_equations; lia).
  pose proof (Z.mod_pos_bound t msPerDay eq_refl) as Hms.
  fold (TimeWithinDay t) in Hms.
  set (ms := TimeWithinDay t) in *.
  unfold msPerDay in Hms.
  assert (Hms0 : ms = 0) by (Z.div_mod_to_equations; lia).
  destruct (civil_bounds _ _ _ _ Hcivil) as [Hm Hd].
  assert (m = 1 /\ d = 1) as [-> ->] by (Z.div_mod_to_equations; lia).
  subst y. apply civil_epoch in Hcivil.
  unfold ms, TimeWithinDay, Day, msPerDay in *.
  Z.div_mod_to_equations; lia.
Qed.

Example toISOString_2023 :
  toISOString 1700000000000 = Some "2023-11-14T22:13:20.000Z".
Proof. reflexivity. Qed.

Example toISOString_leap_day :
  toISOString 1709164800123 = Some "2024-02-29T00:00:00.123Z".
Proof. reflexivity. Qed.

Example toISOString_before_epoch :
  toISOString (-1) = Some "1969-12-31T23:59:59.999Z".
Proof. reflexivity. Qed.

Example toISOString_latest :
  toISOString 8640000000000000 = Some "+275760-09-13T00:00:00.000Z" /\
  toISOString 8640000000000001 = None.
Proof. split; reflexivity. Qed.

Example toISOString_earliest :
  toISOString (-8640000000000000) = Some "-271821-04-20T00:00:00.000Z".
Proof. reflexivity. Qed.

(** The year computed by [civil] is the year of the ECMAScript
    specification: the one whose first day is the last not after [day]. *)
Lemma civil_year (day y m d : Z) :
  civil day = (y, m, d) -> DayFromYear y <= day < DayFromYear (y + 1).
Proof.
  unfold civil, DayFromYear.
  set (z := day + 719468).
  set (era := z / 146097).
  set (doe := z mod 146097).
  assert (Hz : z = 146097 * era + doe) by (apply Z.div_mod; lia).
  assert (Hdoe : 0 <= doe < 146097) by (apply Z.mod_pos_bound; lia).
  pose proof (day_of_era_bounds doe Hdoe) as Hb. cbv zeta in Hb.
  set (yoe := (doe - doe / 1460 + doe / 36524 - doe / 146096) / 365) in *.
  set (doy := doe - (365 * yoe + yoe / 4 - yoe / 100)) in *.
  set (mp := (5 * doy + 2) / 153).
  assert (Hmp0 : 0 <= mp <= 11) by (subst mp; Z.div_mod_to_equations; lia).
  assert (Hmp1 : mp < 10 <-> doy < 306) by (subst mp; Z.div_mod_to_equations; lia).
  intros H.
  destruct (mp <? 10) eqn:Hmp; [apply Z.ltb_lt in Hmp | apply Z.ltb_ge in Hmp].
  - replace (mp + 3 <=? 2) with false in H by (symmetry; apply Z.leb_gt; lia).
    injection H as Hy _ _. subst y.
    assert (Hday : day = 146097 * era + doe - 719468) by lia.
    assert (Hdoy : doy < 306) by lia.
    clearbody yoe doe era. clear Hz z mp Hmp0 Hmp1 Hmp.
    subst doy. Z.div_mod_to_equations. lia.
  - replace (mp - 9 <=? 2) with true in H by (symmetry; apply Z.leb_le; lia).
    injection H as Hy _ _. subst y.
    assert (Hday : day = 146097 * era + doe - 719468) by lia.
    assert (Hdoy : 306 <= doy) by lia.
    clearbody yoe doe era. clear Hz z mp Hmp0 Hmp1 Hmp.
    subst doy. Z.div_mod_to_equations. lia.
Qed.
End DateFacts.

(** ** Objects *)

Module ObjectFacts.
Section WithValues.
Context {V : Type}.
Implicit Types (o : list (string * V)) (k : string) (v : V).

Lemma existsb_key k o :
  existsb (fun p => String.eqb k (fst p)) o = true <-> k ∈ JS.keys o.
Proof.
  induction o as [|[k' v'] o IH]; cbn.
  - split; [discriminate | intros H; inversion H].
  - rewrite orb_true_iff, IH, elem_of_cons.
    destruct (String.eqb_spec k k'); intuition congruence.
Qed.

(** Array-index keys come first, in numeric order; a key that is written
    again keeps its place. *)
Example fromEntries_order :
  JS.fromEntries [("b", 1); ("2", 2); ("a", 3); ("1", 4); ("b", 5); ("01", 6)] =
  [("1", 4); ("2", 2); ("b", 5); ("a", 3); ("01", 6)].
Proof. reflexivity. Qed.

(** Reading a property after a write. *)
Lemma get_set k k' v o :
  JS.get k (JS.set k' v o) = if String.eqb k k' then Some v else JS.get k o.
Proof.
  induction o as [|[k0 v0] o IH]; cbn.
  - destruct (String.eqb k k'); reflexivity.
  - destruct (String.eqb_spec k' k0) as [->|Hne]; cbn.
    + destruct (String.eqb k k0); reflexivity.
    + destruct (JS.before k' k0 && negb (existsb _ o)); cbn.
      * destruct (String.eqb k k'); reflexivity.
      * rewrite IH. destruct (String.eqb_spec k k') as [->|]; [|reflexivity].
        destruct (String.eqb_spec k' k0); [contradiction | reflexivity].
Qed.

(** A write keeps the keys of the object, or adds the new key once. *)
Lemma keys_set k v o :
  (k ∈ JS.keys o -> JS.keys (JS.set k v o) = JS.keys o) /\
  (k ∉ JS.keys o -> JS.keys (JS.set k v o) ≡ₚ k :: JS.keys o).
Proof.
  induction o as [|[k0 v0] o [IHin IHout]]; cbn.
  - split; [intros H; inversion H | reflexivity].
  - destruct (String.eqb_spec k k0) as [->|Hne]; cbn.
    + split; [reflexivity | intros H; exfalso; apply H; left].
    + destruct (existsb _ o) eqn:Hex; cbn.
      * rewrite andb_false_r. cbn. apply existsb_key in Hex.
        split; [intros _; f_equal; auto |].
        intros H. exfalso. apply H. right. exact Hex.
      * assert (Hnotin : k ∉ JS.keys o).
        { intros Hin. apply existsb_key in Hin. congruence. }
        rewrite andb_true_r.
        destruct (JS.before k k0); cbn.
        -- split; [|reflexivity]. intros Hin.
           apply elem_of_cons in Hin as [?|?]; contradiction.
        -- split.
           ++ intros Hin. apply elem_of_cons in Hin as [?|?]; contradiction.
           ++ intros _. rewrite (IHout Hnotin). apply Permutation_swap.
Qed.

Lemma NoDup_keys_set k v o : NoDup (JS.keys o) -> NoDup (JS.keys (JS.set k v o)).
Proof.
  intros Hnd. destruct (keys_set k v o) as [Hin Hout].
  destruct (decide (k ∈ JS.keys o)) as [H|H].
  - rewrite (Hin H). exact Hnd.
  - rewrite (Hout H). apply NoDup_cons. auto.
Qed.

Lemma elem_of_keys_set k k' v o :
  k ∈ JS.keys (JS.set k' v o) <-> k = k' \/ k ∈ JS.keys o.
Proof.
  destruct (keys_set k' v o) as [Hin Hout].
  destruct (decide (k' ∈ JS.keys o)) as [H|H].
  - rewrite (Hin H). split; [auto | intros [->|?]; auto].
  - rewrite (Hout H), elem_of_cons. reflexivity.
Qed.

Lemma find_last_app k (l1 l2 : list (string * V)) :
  find_last k (l1 ++ l2) =
  match find_last k l2 with
  | Some v => Some v
  | None => find_last k l1
  end.
Proof.
  induction l1 as [|e l1 IH]; cbn.
  - destruct (find_last k l2); reflexivity.
  - rewrite IH. destruct (find_last k l2); reflexivity.
Qed.

Lemma get_foldl_set k (entries : list (string * V)) o :
  JS.get k (foldl (fun o e => JS.set (fst e) (snd e) o) o entries) =
  match find_last k entries with
  | Some v => Some v
  | None => JS.get k o
  end.
Proof.
  revert o. induction entries as [|e entries IH]; intros o; cbn; [reflexivity|].
  rewrite IH, get_set.
  destruct (find_last k entries); [reflexivity|].
  destruct (String.eqb k (fst e)); reflexivity.
Qed.

(** In [Object.fromEntries] the last entry of a key wins. *)
Lemma get_fromEntries k (entries : list (string * V)) :
  JS.get k (JS.fromEntries entries) = find_last k entries.
Proof.
  unfold JS.fromEntries. rewrite get_foldl_set.
  destruct (find_last k entries); reflexivity.
Qed.

Lemma keys_foldl_set (entries : list (string * V)) o :
  NoDup (JS.keys o) ->
  NoDup (JS.keys (foldl (fun o e => JS.set (fst e) (snd e) o) o entries)) /\
  (forall k, k ∈ JS.keys (foldl (fun o e => JS.set (fst e) (snd e) o) o entries) <->
             k ∈ map fst entries \/ k ∈ JS.keys o).
Proof.
  revert o. induction entries as [|e entries IH]; intros o Hnd; cbn.
  - split; [exact Hnd|]. intros k. split; [auto | intros [H|H]; [inversion H | exact H]].
  - destruct (IH (JS.set (fst e) (snd e) o) (NoDup_keys_set _ _ _ Hnd)) as [IH1 IH2].
    split; [exact IH1|]. intros k. rewrite IH2, elem_of_keys_set, elem_of_cons.
    tauto.
Qed.

(** Every key is a property of the object exactly once. *)
Lemma keys_fromEntries (entries : list (string * V)) :
  NoDup (JS.keys (JS.fromEntries entries)) /\
  (forall k, k ∈ JS.keys (JS.fromEntries entries) <-> k ∈ map fst entries).
Proof.
  destruct (keys_foldl_set entries [] (NoDup_nil_2)) as [H1 H2].
  split; [exact H1|]. intros k. unfold JS.fromEntries. rewrite H2.
  split; [intros [H|H]; [exact H | inversion H] | auto].
Qed.
End WithValues.
End ObjectFacts.

(** ** Lists *)

Lemma filter_cons_bool {A : Type} (f : A -> bool) (x : A) (l : list A) :
  filter (fun a => f a) (x :: l) =
  if f x then x :: filter (fun a => f a) l else filter (fun a => f a) l.
Proof.
  rewrite filter_cons.
  destruct (decide _) as [H|H]; cbv beta in H; destruct (f x); try reflexivity.
  - destruct H.
  - destruct H. exact I.
Qed.

(** ** Reasoning about effects *)

Lemma bind_run {A B : Type} (m : M A) (f : A -> M B) (st : State) :
  (m ≫= f) st =
  match m st with
  | (JS.Normal a, st') => f a st'
  | (JS.Throw e, st') => (JS.Throw e, st')
  end.
Proof. reflexivity. Qed.

Lemma bind_normal {A B : Type} (m : M A) (f : A -> M B) st b st' :
  (m ≫= f) st = (JS.Normal b, st') ->
  exists a st1, m st = (JS.Normal a, st1) /\ f a st1 = (JS.Normal b, st').
Proof.
  rewrite bind_run. destruct (m st) as [[a|e] st1]; [eauto | discriminate].
Qed.

Lemma console_write_run level args st :
  console_write level args st =
  (JS.Normal tt, {| console := console st ++ [(level, args)]; network := network st |}).
Proof. reflexivity. Qed.

(** Splits a hypothesis about a run of [m ≫= f] that completed normally. *)
Ltac bind_inv H :=
  let a := fresh "a" in
  let st1 := fresh "st" in
  let H1 := fresh "Hrun" in
  apply bind_normal in H as (a & st1 & H1 & H).

(** ** Status and time normalisation *)

(** C2: [allureStatusToOutcome] yields one of the four outcomes, following the
    table: [undefined] gives Blocked, ["passed"] gives Passed, ["skipped"]
    gives Skipped and every other string, ["failed"] and ["broken"] among
    them, gives Failed. *)
Theorem allureStatusToOutcome_table :
  allureStatusToOutcome None = "Blocked" /\
  allureStatusToOutcome (Some "passed") = "Passed" /\
  allureStatusToOutcome (Some "skipped") = "Skipped" /\
  allureStatusToOutcome (Some "failed") = "Failed" /\
  allureStatusToOutcome (Some "broken") = "Failed" /\
  (forall s : string,
     s <> "passed" -> s <> "skipped" -> allureStatusToOutcome (Some s) = "Failed") /\
  (forall status : option string,
     allureStatusToOutcome status ∈ ["Blocked"; "Passed"; "Skipped"; "Failed"]).
Proof.
  repeat split; try reflexivity.
  - intros s Hp Hs. unfold allureStatusToOutcome.
    destruct (String.eqb_spec s "passed"); [congruence|].
    destruct (String.eqb_spec s "skipped"); [congruence|].
    reflexivity.
  - intros [s|]; unfold allureStatusToOutcome; [|set_solver].
    destruct (String.eqb s "passed"); [set_solver|].
    destruct (String.eqb s "skipped"); set_solver.
Qed.

(** C9: the empty string is a defined status, so it falls through to
    Failed and not to Blocked. *)
Theorem allureStatusToOutcome_empty_string :
  allureStatusToOutcome (Some "") = "Failed" /\
  allureStatusToOutcome (Some "") <> "Blocked".
Proof. split; [reflexivity | discriminate]. Qed.

(** The time value of a date is one that [toISOString] prints. *)
Lemma TimeClip_valid (value : JS.number) (t : Z) :
  Date.TimeClip value = Some t -> Date.valid t = true.
Proof.
  unfold Date.TimeClip, Date.valid.
  destruct value as [s|s| |s m e]; try discriminate.
  - intros [= <-]. reflexivity.
  - cbv zeta.
    set (n := Z.pos m * 2 ^ Z.max 0 e). set (d := 2 ^ Z.max 0 (- e)).
    assert (0 < d) by (apply Z.pow_pos_nonneg; lia).
    assert (0 <= n) by (apply Z.mul_nonneg_nonneg; [lia | apply Z.pow_nonneg; lia]).
    destruct (Z.leb_spec n (Date.maxTime * d)) as [Hle|]; [|discriminate].
    intros [= <-].
    assert (0 <= n / d) by (apply Z.div_pos; lia).
    assert (n / d <= Date.maxTime) by (apply Z.div_le_upper_bound; lia).
    unfold Date.maxTime in *.
    destruct s; cbn [SpecFloat.cond_Zopp]; apply andb_true_intro; split; apply Z.leb_le; lia.
Qed.

(** An integer is its own time value when a date can hold it. *)
Lemma TimeClip_int (z : Z) :
  Date.TimeClip (JS.int z) = if Date.valid z then Some z else None.
Proof.
  unfold Date.valid.
  destruct z as [|m|m]; [reflexivity| |];
    unfold JS.int, Date.TimeClip, Date.maxTime; cbv zeta;
    change (Z.max 0 0) with 0; change (Z.max 0 (- 0)) with 0; change (2 ^ 0) with 1;
    rewrite !Z.mul_1_r, Z.div_1_r; cbn [SpecFloat.cond_Zopp].
  all: match goal with
       | |- (if ?c then _ else _) = (if ?b then _ else _) =>
           replace b with c
             by (apply Bool.eq_true_iff_eq; rewrite andb_true_iff, !Z.leb_le; lia);
           destruct c; reflexivity
       end.
Qed.

Lemma toISOString_valid (t : Z) :
  Date.valid t = true -> exists iso, Date.toISOString t = Some iso.
Proof.
  intros Hvalid. unfold Date.toISOString. rewrite Hvalid.
  destruct (Date.civil (Date.Day t)) as [[y m] d]. eauto.
Qed.

(** At an integer the function on numbers is the function on time stamps. *)
Lemma convertAllureTimestamp_int (value : option Z) :
  convertAllureTimestamp value = convertAllureTimestamp_number (JS.int <$> value).
Proof.
  destruct value as [z|]; [|reflexivity].
  unfold convertAllureTimestamp, convertAllureTimestamp_number.
  cbn [fmap option_fmap option_map JS.nullish].
  replace (JS.truthy_number (Some (JS.int z))) with (JS.truthy_num (Some z))
    by (destruct z; reflexivity).
  destruct (JS.truthy_num (Some z)); [|reflexivity].
  unfold Date.toISOString_number. rewrite TimeClip_int.
  destruct (Date.valid z) eqn:Hvalid; [reflexivity|].
  unfold Date.toISOString. rewrite Hvalid. reflexivity.
Qed.

(** The doubles of one second, of one and a half milliseconds behind the
    epoch and of the last millisecond but one of a date, as the Standard
    Library normalises them, and what [new Date] makes of them. *)
Example TimeClip_binary64 :
  Date.TimeClip (SpecFloat.binary_normalize 53 1024 1000 0 false) = Some 1000 /\
  Date.TimeClip (SpecFloat.binary_normalize 53 1024 (-3) (-1) false) = Some (-1) /\
  Date.TimeClip (SpecFloat.binary_normalize 53 1024 8639999999999999 0 false) =
    Some 8639999999999999 /\
  Date.TimeClip (SpecFloat.binary_normalize 53 1024 8640000000000001 0 false) = None.
Proof. repeat split; vm_compute; reflexivity. Qed.

(** One half of a millisecond, a number that is no integer. *)
Example convertAllureTimestamp_half :
  convertAllureTimestamp_number (Some (SpecFloat.S754_finite false 4503599627370496 (-53))) =
  JS.Normal (Some Date.epochString).
Proof. vm_compute. reflexivity. Qed.

(** C8, amended: [undefined] and a falsy number ([0], [-0], [NaN]) are mapped
    to [null].  A number that is not falsy is mapped to the ISO-8601 string of
    its whole milliseconds when a date can hold it, which is within
    +-8.64e15, and otherwise the call throws a [RangeError].  A time stamp of
    whole milliseconds is never mapped to the string of the epoch; among all
    numbers only those that are not zero and below one millisecond in
    magnitude are. *)
Theorem convertAllureTimestamp_spec :
  convertAllureTimestamp None = JS.Normal None /\
  convertAllureTimestamp (Some 0) = JS.Normal None /\
  (forall t : Z, t <> 0 -> Date.valid t = true ->
     exists iso, Date.toISOString t = Some iso /\
                 convertAllureTimestamp (Some t) = JS.Normal (Some iso)) /\
  (forall t : Z, Date.valid t = false ->
     convertAllureTimestamp (Some t) = JS.Throw (JS.RangeError "Invalid time value")) /\
  (forall value : option Z,
     convertAllureTimestamp value <> JS.Normal (Some Date.epochString)) /\
  (forall value : option Z,
     convertAllureTimestamp value = convertAllureTimestamp_number (JS.int <$> value)) /\
  convertAllureTimestamp_number None = JS.Normal None /\
  (forall number : JS.number,
     JS.truthy_number (Some number) = false ->
     convertAllureTimestamp_number (Some number) = JS.Normal None) /\
  (forall (number : JS.number) (t : Z),
     JS.truthy_number (Some number) = true -> Date.TimeClip number = Some t ->
     exists iso, Date.toISOString t = Some iso /\
                 convertAllureTimestamp_number (Some number) = JS.Normal (Some iso)) /\
  (forall number : JS.number,
     JS.truthy_number (Some number) = true -> Date.TimeClip number = None ->
     convertAllureTimestamp_number (Some number) =
       JS.Throw (JS.RangeError "Invalid time value")) /\
  (forall value : option JS.number,
     convertAllureTimestamp_number value = JS.Normal (Some Date.epochString) <->
     exists number, value = Some number /\ JS.truthy_number (Some number) = true /\
                    Date.TimeClip number = Some 0).
Proof.
  repeat match goal with |- _ /\ _ => split end; try reflexivity.
  - intros t Ht Hvalid. unfold convertAllureTimestamp. cbn.
    destruct (Z.eqb_spec t 0) as [|_]; [contradiction|]. cbn.
    destruct (toISOString_valid t Hvalid) as [iso Hiso]. rewrite Hiso. eauto.
  - intros t Hvalid. unfold convertAllureTimestamp. cbn.
    destruct (Z.eqb_spec t 0) as [->|_]; [discriminate|]. cbn.
    unfold Date.toISOString. rewrite Hvalid. reflexivity.
  - intros [t|]; unfold convertAllureTimestamp; cbn; [|discriminate].
    destruct (Z.eqb_spec t 0) as [|Ht]; cbn; [discriminate|].
    destruct (Date.toISOString t) as [iso|] eqn:Hiso; [|discriminate].
    intros [= ->]. apply DateFacts.toISOString_epoch in Hiso. contradiction.
  - apply convertAllureTimestamp_int.
  - intros number Hfalsy. unfold convertAllureTimestamp_number. rewrite Hfalsy. reflexivity.
  - intros number t Htruthy Hclip. unfold convertAllureTimestamp_number.
    rewrite Htruthy. cbn [JS.nullish]. unfold Date.toISOString_number. rewrite Hclip.
    destruct (toISOString_valid t (TimeClip_valid number t Hclip)) as [iso Hiso].
    rewrite Hiso. eauto.
  - intros number Htruthy Hclip. unfold convertAllureTimestamp_number.
    rewrite Htruthy. cbn [JS.nullish]. unfold Date.toISOString_number. rewrite Hclip.
    reflexivity.
  - intros value. split.
    + intros Hepoch. destruct value as [number|]; [|discriminate Hepoch].
      exists number. unfold convertAllureTimestamp_number in Hepoch.
      destruct (JS.truthy_number (Some number)); [|discriminate].
      cbn [JS.nullish] in Hepoch. unfold Date.toISOString_number in Hepoch.
      destruct (Date.TimeClip number) as [t|]; [|discriminate].
      destruct (Date.toISOString t) as [iso|] eqn:Hiso; [|discriminate].
      injection Hepoch as ->. apply DateFacts.toISOString_epoch in Hiso. subst t. auto.
    + intros (number & -> & Htruthy & Hclip). unfold convertAllureTimestamp_number.
      rewrite Htruthy. cbn [JS.nullish]. unfold Date.toISOString_number. rewrite Hclip.
      reflexivity.
Qed.

(** The claim as it was stated fails one millisecond beyond what a date can
    hold: the value is present and not zero, and no string comes back. *)
Lemma convertAllureTimestamp_counterexample :
  convertAllureTimestamp (Some 8640000000000001) =
    JS.Throw (JS.RangeError "Invalid time value") /\
  (forall iso : string,
     convertAllureTimestamp (Some 8640000000000001) <> JS.Normal (Some iso)).
Proof. split; [vm_compute; reflexivity | intros iso; vm_compute; discriminate]. Qed.

(** A time value that [Date] cannot hold makes [toISOString] throw. *)
Lemma convertAllureTimestamp_out_of_range (t : Z) :
  Date.valid t = false ->
  convertAllureTimestamp (Some t) = JS.Throw (JS.RangeError "Invalid time value").
Proof.
  intros Hvalid. unfold convertAllureTimestamp. cbn.
  destruct (Z.eqb_spec t 0) as [->|_]; [discriminate|]. cbn.
  unfold Date.toISOString. rewrite Hvalid. reflexivity.
Qed.

Lemma convertAllureTimestamp_witness :
  convertAllureTimestamp (Some 1000) = JS.Normal (Some "1970-01-01T00:00:01.000Z").
Proof.
  destruct (proj1 (proj2 (proj2 convertAllureTimestamp_spec)) 1000 ltac:(lia) eq_refl)
    as (iso & Hiso & Hrun).
  vm_compute in Hiso. injection Hiso as <-. exact Hrun.
Defined.

(** ** Durations *)

(** A double holds every safe integer. *)
Lemma binary64_exact (z : Z) : JS.isSafeInteger z = true -> JS.binary64 z = z.
Proof.
  unfold JS.isSafeInteger, JS.binary64. intros Hsafe. apply Z.leb_le in Hsafe. cbv zeta.
  destruct (Z.leb_spec (Z.log2 (Z.abs z) - 52) 0) as [|Hbig]; [reflexivity|].
  assert (0 < Z.abs z) as Hpos.
  { destruct (Z.eq_dec (Z.abs z) 0) as [Hz|]; [|lia]. rewrite Hz in Hbig. cbn in Hbig. lia. }
  assert (2 ^ 53 <= Z.abs z) by (apply Z.log2_le_pow2; lia).
  change (2 ^ 53) with 9007199254740992 in *. lia.
Qed.

Lemma duration_of_spec (start stop : option Z) :
  duration_of start stop =
  match start, stop with
  | Some a, Some b => if (a =? 0) || (b =? 0) then 0 else JS.sub b a
  | _, _ => 0
  end.
Proof.
  unfold duration_of.
  destruct start as [a|], stop as [b|]; cbn; try reflexivity.
  - destruct (a =? 0), (b =? 0); reflexivity.
  - destruct (a =? 0); reflexivity.
Qed.

Lemma processAllureStep_unfold env args allureStep :
  processAllureStep env args allureStep =
  ('(innerSpecs, innerResults) ←
     processAllureSteps env args (JS.nullish (AllureStep.steps allureStep) []);
   let title := JS.nullish (AllureStep.name allureStep) "" in
   let stepSpec := {| StepSpec.title := title; StepSpec.steps := innerSpecs |} in
   attachments ← uploadAllureAttachments env args
                   (JS.nullish (AllureStep.attachments allureStep) []);
   let stepResult :=
     {| StepResult.title := title;
        StepResult.stepResults := innerResults;
        StepResult.outcome := allureStatusToOutcome (AllureStep.status allureStep);
        StepResult.duration :=
          duration_of (AllureStep.start allureStep) (AllureStep.stop allureStep);
        StepResult.parameters :=
          JS.fromEntries
            (map (fun param => (NameValue.name param, NameValue.value param))
                 (JS.nullish (AllureStep.parameters allureStep) []));
        StepResult.attachments := attachments |} in
   mret (stepSpec, stepResult)).
Proof.
  destruct allureStep as [name [inner|] atts params status start stop]; reflexivity.
Qed.

(** What the body of the loop returns for a step. *)
Lemma processAllureStep_result env args allureStep st stepSpec stepResult st' :
  processAllureStep env args allureStep st = (JS.Normal (stepSpec, stepResult), st') ->
  StepSpec.title stepSpec = JS.nullish (AllureStep.name allureStep) "" /\
  StepResult.title stepResult = JS.nullish (AllureStep.name allureStep) "" /\
  StepResult.outcome stepResult = allureStatusToOutcome (AllureStep.status allureStep) /\
  StepResult.duration stepResult =
    duration_of (AllureStep.start allureStep) (AllureStep.stop allureStep).
Proof.
  rewrite processAllureStep_unfold. intros H.
  bind_inv H. destruct a as [innerSpecs innerResults].
  bind_inv H. injection H as <- <- <-. auto.
Qed.

(** Within the safe integers the duration is the difference that the
    specification speaks of. *)
Lemma duration_of_exact (start stop : option Z) :
  safe_times start stop = true -> duration_of start stop = duration_exact start stop.
Proof.
  unfold safe_times, duration_of, duration_exact, JS.sub. intros Hsafe.
  apply andb_prop in Hsafe as [_ Hdiff].
  destruct (JS.truthy_num start && JS.truthy_num stop); [|reflexivity].
  apply binary64_exact, Hdiff.
Qed.

(** C7, amended: the duration of a step and of a test record is [0] when
    [start] or [stop] is absent or [0], and otherwise [stop - start], exactly
    so as long as the two time stamps and their difference are safe integers
    (beyond, the difference is rounded to a double); a [stop] before [start]
    gives a negative duration, which is passed on as it is. *)
Theorem duration_stop_minus_start (env : Env.t) (args : Args.t) :
  (forall start stop : Z,
     start <> 0 -> stop <> 0 -> safe_times (Some start) (Some stop) = true ->
     duration_of (Some start) (Some stop) = stop - start) /\
  (forall start stop : option Z,
     start = None \/ start = Some 0 \/ stop = None \/ stop = Some 0 ->
     duration_of start stop = 0) /\
  (forall start stop : Z,
     start <> 0 -> stop <> 0 -> safe_times (Some start) (Some stop) = true ->
     stop < start -> duration_of (Some start) (Some stop) < 0) /\
  duration_of (Some 2000) (Some 1000) = -1000 /\
  (forall allureStep st stepSpec stepResult st',
     processAllureStep env args allureStep st = (JS.Normal (stepSpec, stepResult), st') ->
     safe_times (AllureStep.start allureStep) (AllureStep.stop allureStep) = true ->
     StepResult.duration stepResult =
       duration_exact (AllureStep.start allureStep) (AllureStep.stop allureStep)) /\
  (forall testResult data stepResults st body st',
     createBody args testResult data stepResults st = (JS.Normal body, st') ->
     safe_times (AllureResult.start testResult) (AllureResult.stop testResult) = true ->
     exists props, body = JS.Obj props /\
       JS.get "duration" props =
         Some (JS.Num (duration_exact (AllureResult.start testResult)
                                      (AllureResult.stop testResult)))) /\
  (forall testResult stepResults st body st',
     testResultBody env args testResult stepResults st = (JS.Normal body, st') ->
     safe_times (AllureResult.start testResult) (AllureResult.stop testResult) = true ->
     exists props, body = JS.Arr [JS.Obj props] /\
       JS.get "duration" props =
         Some (JS.Num (duration_exact (AllureResult.start testResult)
                                      (AllureResult.stop testResult)))).
Proof.
  assert (Hexact : forall start stop : Z,
            start <> 0 -> stop <> 0 -> safe_times (Some start) (Some stop) = true ->
            duration_of (Some start) (Some stop) = stop - start).
  { intros start stop Hstart Hstop Hsafe. rewrite (duration_of_exact _ _ Hsafe).
    unfold duration_exact. cbn.
    destruct (Z.eqb_spec start 0), (Z.eqb_spec stop 0); cbn; congruence. }
  split; [exact Hexact|]. split; [|split; [|split; [|split; [|split]]]].
  - intros start stop H. rewrite duration_of_spec.
    destruct start as [a|], stop as [b|]; try reflexivity.
    destruct H as [H|[H|[H|H]]]; try discriminate; injection H as ->;
      [reflexivity | rewrite orb_true_r; reflexivity].
  - intros start stop Hstart Hstop Hsafe Hlt. rewrite (Hexact _ _ Hstart Hstop Hsafe). lia.
  - reflexivity.
  - intros allureStep st stepSpec stepResult st' H Hsafe.
    apply processAllureStep_result in H. rewrite <- (duration_of_exact _ _ Hsafe). tauto.
  - intros testResult data stepResults st body st' H Hsafe.
    rewrite <- (duration_of_exact _ _ Hsafe).
    unfold createBody in H. bind_inv H. bind_inv H.
    injection H as <- _. eexists. split; [reflexivity|].
    rewrite ObjectFacts.get_fromEntries.
    cbn [app find_last].
    rewrite ObjectFacts.find_last_app. reflexivity.
  - intros testResult stepResults st body st' H Hsafe.
    rewrite <- (duration_of_exact _ _ Hsafe).
    unfold testResultBody in H. do 4 bind_inv H.
    injection H as <- _. eexists. split; [reflexivity|].
    reflexivity.
Qed.

Lemma duration_stop_minus_start_witness :
  duration_of (Some 1000) (Some 1500) = 1500 - 1000.
Proof.
  apply (proj1 (duration_stop_minus_start
                  (Env.mk ∅ id (fun d n => d +:+ n) (fun _ => Malformed "") (fun _ _ => Rejected ""))
                  (Args.mk "" "" "" "" "" "")));
    [lia | lia | reflexivity].
Defined.

(** The claim as it was stated fails between the first and the last
    millisecond that a date can hold: both are doubles, their difference
    has 54 bits and is odd, and the subtraction rounds it to the even
    neighbour. *)
Lemma duration_stop_minus_start_counterexample :
  duration_of (Some (-8640000000000000)) (Some 8639999999999999) = 17280000000000000 /\
  duration_of (Some (-8640000000000000)) (Some 8639999999999999) <>
    8639999999999999 - (-8640000000000000).
Proof. split; [vm_compute; reflexivity | vm_compute; discriminate]. Qed.

(** The rounding of [JS.sub] is that of the binary64 subtraction of the
    Standard Library, here at the first and the last millisecond of a date
    and at two time stamps of one run. *)
Example sub_binary64 :
  SpecFloat.SFsub 53 1024
    (SpecFloat.binary_normalize 53 1024 8639999999999999 0 false)
    (SpecFloat.binary_normalize 53 1024 (-8640000000000000) 0 false) =
  SpecFloat.binary_normalize 53 1024 (JS.sub 8639999999999999 (-8640000000000000)) 0 false /\
  SpecFloat.SFsub 53 1024
    (SpecFloat.binary_normalize 53 1024 1700000000500 0 false)
    (SpecFloat.binary_normalize 53 1024 1700000001000 0 false) =
  SpecFloat.binary_normalize 53 1024 (JS.sub 1700000000500 1700000001000) 0 false.
Proof. split; vm_compute; reflexivity. Qed.

(** ** Command line *)

Lemma substring_last (s : string) (c : ascii) :
  String.substring (String.length s) 1 (s +:+ String c "") = String c "".
Proof. induction s as [|a s IH]; [reflexivity | exact IH]. Qed.

Lemma length_append (s t : string) :
  String.length (s +:+ t) = (String.length s + String.length t)%nat.
Proof.
  induction s as [|a s IH]; [reflexivity|].
  change (S (String.length (s +:+ t)) = S (String.length s + String.length t)).
  congruence.
Qed.

Lemma endsWith_append_char (s : string) (c : ascii) :
  JS.endsWith (s +:+ String c "") (String c "") = true.
Proof.
  unfold JS.endsWith.
  rewrite length_append. cbn [String.length].
  replace (String.length s + 1 - 1)%nat with (String.length s) by lia.
  rewrite substring_last, String.eqb_refl.
  destruct (Nat.leb_spec 1 (String.length s + 1)); [reflexivity | lia].
Qed.

(** C10: the URL that [parseArgs] returns ends in ['/'], and passing that URL
    back in gives the same URL again. *)
Theorem parseArgs_url_idempotent (env : Env.t)
  (node script inputDir url token projectId configurationId testRunName : string)
  (more : list string) (st : State) :
  exists args,
    parseArgs env
      (node :: script :: inputDir :: url :: token :: projectId :: configurationId ::
       testRunName :: more) st = (JS.Normal args, st) /\
    JS.endsWith (Args.url args) "/" = true /\
    exists args',
      parseArgs env
        (node :: script :: inputDir :: Args.url args :: token :: projectId ::
         configurationId :: testRunName :: more) st = (JS.Normal args', st) /\
      Args.url args' = Args.url args.
Proof.
  eexists. split; [reflexivity|]. cbn [Args.url].
  assert (Hends : JS.endsWith (if JS.endsWith url "/" then url else url +:+ "/") "/" = true).
  { destruct (JS.endsWith url "/") eqn:E; [exact E | apply endsWith_append_char]. }
  split; [exact Hends|].
  eexists. split; [reflexivity|]. cbn [Args.url].
  rewrite Hends. reflexivity.
Qed.

(** ** Step translation *)

Section Steps.
Context (env : Env.t) (args : Args.t).

(** A step without a name is passed over: the loop runs as if the step were
    not in the list. *)
Lemma processAllureSteps_loop_skip body allureSteps stepSpecs stepResults st :
  processAllureSteps_loop body allureSteps stepSpecs stepResults st =
  processAllureSteps_loop body
    (filter (fun s => JS.truthy_str (AllureStep.name s)) allureSteps)
    stepSpecs stepResults st.
Proof.
  revert stepSpecs stepResults st.
  induction allureSteps as [|s rest IH]; intros stepSpecs stepResults st; [reflexivity|].
  rewrite filter_cons. cbn [processAllureSteps_loop].
  destruct (JS.truthy_str (AllureStep.name s)) eqn:Hname; cbn [negb].
  - rewrite decide_True by done.
    cbn [processAllureSteps_loop]. rewrite Hname. cbn [negb].
    rewrite !bind_run. destruct (body s st) as [[[stepSpec stepResult]|e] st1]; [|reflexivity].
    apply IH.
  - rewrite decide_False by (cbn; tauto). apply IH.
Qed.

(** The loop pushes one spec and one result per named step, in order. *)
Lemma processAllureSteps_loop_titles body allureSteps :
  (forall s st stepSpec stepResult st',
     body s st = (JS.Normal (stepSpec, stepResult), st') ->
     StepSpec.title stepSpec = JS.nullish (AllureStep.name s) "" /\
     StepResult.title stepResult = JS.nullish (AllureStep.name s) "") ->
  forall stepSpecs stepResults st stepSpecs' stepResults' st',
    processAllureSteps_loop body allureSteps stepSpecs stepResults st =
      (JS.Normal (stepSpecs', stepResults'), st') ->
    exists newSpecs newResults,
      stepSpecs' = stepSpecs ++ newSpecs /\
      stepResults' = stepResults ++ newResults /\
      map StepSpec.title newSpecs =
        map (fun s => JS.nullish (AllureStep.name s) "")
            (filter (fun s => JS.truthy_str (AllureStep.name s)) allureSteps) /\
      map StepResult.title newResults =
        map (fun s => JS.nullish (AllureStep.name s) "")
            (filter (fun s => JS.truthy_str (AllureStep.name s)) allureSteps).
Proof.
  intros Hbody.
  induction allureSteps as [|s rest IH];
    intros stepSpecs stepResults st stepSpecs' stepResults' st' H.
  - injection H as <- <- _. exists [], []. rewrite !app_nil_r. auto.
  - rewrite filter_cons. cbn [processAllureSteps_loop] in H.
    destruct (JS.truthy_str (AllureStep.name s)) eqn:Hname; cbn [negb] in H.
    + rewrite decide_True by done.
      bind_inv H. destruct a as [stepSpec stepResult].
      apply Hbody in Hrun as [HtitleS HtitleR].
      apply IH in H as (newSpecs & newResults & -> & -> & HS & HR).
      exists (stepSpec :: newSpecs), (stepResult :: newResults).
      rewrite <- !app_assoc. cbn. rewrite HtitleS, HtitleR, HS, HR. auto.
    + rewrite decide_False by (cbn; tauto). eauto.
Qed.

End Steps.

(** ** Attachments *)

Section Attachments.
Context (env : Env.t) (args : Args.t).

Lemma apiEnsureStatus_normal resp st u st' :
  apiEnsureStatus resp st = (JS.Normal u, st') -> Response.ok resp = true /\ st' = st.
Proof.
  unfold apiEnsureStatus. destruct (Response.ok resp); cbn [negb].
  - intros [= _ <-]. auto.
  - rewrite !bind_run, !console_write_run. discriminate.
Qed.

Lemma invokeApiAttachementUpload_normal name attachBuffer contentType st answer st' :
  invokeApiAttachementUpload env args name attachBuffer contentType st =
    (JS.Normal answer, st') ->
  let request :=
    {| Request.method := "POST";
       Request.url := Args.url args +:+ "api/v2/attachments";
       Request.headers := apiAuthHeaders args;
       Request.body := Multipart name attachBuffer contentType |} in
  exists resp,
    Env.fetch env (network st) request = Responded resp /\
    Response.ok resp = true /\
    Response.json resp = Some answer /\
    st' = {| console := console st;
             network := network st ++ [(request, Responded resp)] |}.
Proof.
  intros H request. unfold invokeApiAttachementUpload in H. fold request in H.
  bind_inv H. unfold fetch in Hrun.
  destruct (Env.fetch env (network st) request) as [resp|reason] eqn:Hfetch;
    [|discriminate].
  injection Hrun as <- <-.
  bind_inv H. apply apiEnsureStatus_normal in Hrun as [Hok ->].
  unfold Response_json in H.
  destruct (Response.json resp) as [v|] eqn:Hjson; [|discriminate].
  injection H as <- <-. eauto.
Qed.

(** What a run of the upload loop that completes has done. *)
Lemma uploadAllureAttachments_loop_normal allureAttachments :
  forall attachRefs st refs st',
    uploadAllureAttachments_loop env args allureAttachments attachRefs st =
      (JS.Normal refs, st') ->
    exists newRefs exchanges lines,
      refs = attachRefs ++ newRefs /\
      network st' = network st ++ exchanges /\
      console st' = console st ++ lines /\
      Forall3 (uploaded env args)
        (filter (fun a => uploadable env args a) allureAttachments) exchanges newRefs /\
      filter (fun line => is_warning line) lines =
        map (skipWarning env args)
          (filter (fun a => missing_or_empty env args a) allureAttachments).
Proof.
  induction allureAttachments as [|attach rest IH]; intros attachRefs st refs st' H.
  - injection H as <- <-. exists [], [], []. rewrite !app_nil_r.
    repeat split; constructor.
  - cbn [uploadAllureAttachments_loop] in H.
    rewrite !filter_cons_bool.
    unfold existsSync, readFile in H. fold (attachmentPath env args attach) in H.
    unfold uploadable at 1, missing_or_empty at 1.
    destruct (Env.fs env !! attachmentPath env args attach) as [[content|entries]|] eqn:Hfs;
      cbn [negb] in H.
    + rewrite bind_run in H. cbn in H.
      destruct (String.length content =? 0)%nat eqn:Hlen; cbn [negb].
      * rewrite bind_run, console_write_run in H.
        apply IH in H as (newRefs & exchanges & lines & -> & Hnet & Hcon & Hup & Hwarn).
        eexists newRefs, exchanges, (_ :: lines).
        cbn [console network] in *. rewrite Hcon, <- app_assoc.
        repeat split; try assumption.
        rewrite filter_cons_bool. cbn [is_warning fst map].
        unfold skipWarning at 1. rewrite Hfs. congruence.
      * rewrite bind_run, console_write_run in H.
        bind_inv H. apply invokeApiAttachementUpload_normal in Hrun
          as (resp & Hfetch & Hok & Hjson & ->).
        bind_inv H. injection Hrun as Hid <-.
        apply IH in H as (newRefs & exchanges & lines & -> & Hnet & Hcon & Hup & Hwarn).
        cbn [console network] in *.
        eexists (AttachRef.mk a0 :: newRefs), (_ :: exchanges), (_ :: lines).
        rewrite Hnet, Hcon, <- !app_assoc.
        repeat split.
        -- constructor; [|exact Hup].
           exists content, resp, a. repeat split; assumption.
        -- rewrite filter_cons_bool. exact Hwarn.
    + rewrite bind_run in H. discriminate.
    + rewrite bind_run, console_write_run in H.
      apply IH in H as (newRefs & exchanges & lines & -> & Hnet & Hcon & Hup & Hwarn).
      eexists newRefs, exchanges, (_ :: lines).
      cbn [console network] in *. rewrite Hcon, <- app_assoc.
      repeat split; try assumption.
      rewrite filter_cons_bool. cbn [is_warning fst map].
      unfold skipWarning at 1. rewrite Hfs. congruence.
Qed.

(** *** The console does not steer the program *)

Lemma sim_ret {A : Type} (a : A) : sim (mret a) (mret a).
Proof. intros st1 st2 Hnet. auto. Qed.

Lemma sim_throw {A : Type} (e : JS.exn) : sim (throw e : M A) (throw e).
Proof. intros st1 st2 Hnet. auto. Qed.

Lemma sim_lift {A : Type} (c : JS.completion A) : sim (lift c) (lift c).
Proof. intros st1 st2 Hnet. auto. Qed.

Lemma sim_console_write level line : sim (console_write level line) (console_write level line).
Proof. intros st1 st2 Hnet. auto. Qed.

Lemma sim_bind {A B : Type} (m1 m2 : M A) (f1 f2 : A -> M B) :
  sim m1 m2 -> (forall a, sim (f1 a) (f2 a)) -> sim (m1 ≫= f1) (m2 ≫= f2).
Proof.
  intros Hm Hf st1 st2 Hnet. rewrite !bind_run.
  destruct (Hm st1 st2 Hnet) as [Hres Hnet'].
  destruct (m1 st1) as [[a1|e1] st1'], (m2 st2) as [[a2|e2] st2']; cbn in *;
    try discriminate.
  - injection Hres as ->. apply Hf. exact Hnet'.
  - injection Hres as ->. auto.
Qed.

(** A console line in front changes nothing that [sim] compares. *)
Lemma sim_console_write_l {A : Type} level line (m1 m2 : M A) :
  sim m1 m2 -> sim (console_write level line;; m1) m2.
Proof.
  intros Hm st1 st2 Hnet. rewrite bind_run, console_write_run. apply Hm. exact Hnet.
Qed.

Lemma sim_fetch request : sim (fetch env request) (fetch env request).
Proof.
  intros st1 st2 Hnet. unfold fetch. rewrite Hnet.
  destruct (Env.fetch env (network st2) request); cbn; auto.
Qed.

Lemma sim_apiEnsureStatus resp : sim (apiEnsureStatus resp) (apiEnsureStatus resp).
Proof.
  unfold apiEnsureStatus. destruct (negb (Response.ok resp)).
  - repeat (apply sim_bind; [apply sim_console_write | intros ?]). apply sim_throw.
  - apply sim_ret.
Qed.

Lemma sim_invokeApiAttachementUpload name attachBuffer contentType :
  sim (invokeApiAttachementUpload env args name attachBuffer contentType)
      (invokeApiAttachementUpload env args name attachBuffer contentType).
Proof.
  unfold invokeApiAttachementUpload.
  apply sim_bind; [apply sim_fetch | intros resp].
  apply sim_bind; [apply sim_apiEnsureStatus | intros _].
  unfold Response_json. destruct (Response.json resp); [apply sim_ret | apply sim_throw].
Qed.

(** One more turn of the upload loop in front of two similar rests. *)
Lemma sim_uploadAllureAttachments_loop_cons attach rest1 rest2 :
  (forall attachRefs,
     sim (uploadAllureAttachments_loop env args rest1 attachRefs)
         (uploadAllureAttachments_loop env args rest2 attachRefs)) ->
  forall attachRefs,
    sim (uploadAllureAttachments_loop env args (attach :: rest1) attachRefs)
        (uploadAllureAttachments_loop env args (attach :: rest2) attachRefs).
Proof.
  intros Hrest attachRefs. cbn [uploadAllureAttachments_loop].
  destruct (negb (existsSync env _)).
  - apply sim_bind; [apply sim_console_write | intros _; apply Hrest].
  - apply sim_bind.
    + unfold readFile. destruct (Env.fs env !! _) as [[content|entries]|];
        [apply sim_ret | apply sim_throw | apply sim_throw].
    + intros attachBuffer. destruct (String.length attachBuffer =? 0)%nat.
      * apply sim_bind; [apply sim_console_write | intros _; apply Hrest].
      * apply sim_bind; [apply sim_console_write | intros _].
        apply sim_bind; [apply sim_invokeApiAttachementUpload | intros resp].
        apply sim_bind; [apply sim_lift | intros id]. apply Hrest.
Qed.

Lemma sim_uploadAllureAttachments_loop allureAttachments :
  forall attachRefs,
    sim (uploadAllureAttachments_loop env args allureAttachments attachRefs)
        (uploadAllureAttachments_loop env args allureAttachments attachRefs).
Proof.
  induction allureAttachments as [|attach rest IH].
  - intros attachRefs. apply sim_ret.
  - apply sim_uploadAllureAttachments_loop_cons. exact IH.
Qed.

(** A descriptor whose file is missing or empty costs a warning and nothing
    else. *)
Lemma sim_uploadAllureAttachments_loop_skip attach rest :
  missing_or_empty env args attach = true ->
  forall attachRefs,
    sim (uploadAllureAttachments_loop env args (attach :: rest) attachRefs)
        (uploadAllureAttachments_loop env args rest attachRefs).
Proof.
  intros Hskip attachRefs. cbn [uploadAllureAttachments_loop].
  unfold missing_or_empty in Hskip. unfold existsSync, readFile.
  fold (attachmentPath env args attach).
  destruct (Env.fs env !! attachmentPath env args attach) as [[content|entries]|];
    cbn [negb]; [|discriminate|].
  - intros st1 st2 Hnet. rewrite bind_run. cbn. rewrite Hskip.
    apply sim_console_write_l; [apply sim_uploadAllureAttachments_loop | exact Hnet].
  - apply sim_console_write_l, sim_uploadAllureAttachments_loop.
Qed.

Lemma sim_uploadAllureAttachments_loop_drop attach before after :
  missing_or_empty env args attach = true ->
  forall attachRefs,
    sim (uploadAllureAttachments_loop env args (before ++ attach :: after) attachRefs)
        (uploadAllureAttachments_loop env args (before ++ after) attachRefs).
Proof.
  intros Hskip. induction before as [|b before IH]; cbn [app].
  - apply sim_uploadAllureAttachments_loop_skip. exact Hskip.
  - apply sim_uploadAllureAttachments_loop_cons. exact IH.
Qed.
End Attachments.


(** ** API calls *)

Section Api.
Context (env : Env.t) (args : Args.t).

(** [invokeApi] makes exactly one call, whatever comes of it. *)
Lemma invokeApi_network method relUrl body st :
  network (snd (invokeApi env args method relUrl body st)) =
  network st ++ [(apiRequest args method relUrl body,
                  Env.fetch env (network st) (apiRequest args method relUrl body))].
Proof.
  unfold invokeApi. fold (apiRequest args method relUrl body).
  rewrite bind_run, console_write_run, bind_run. unfold fetch. cbn [network].
  destruct (Env.fetch env (network st) _) as [resp|reason]; [|reflexivity].
  rewrite bind_run. unfold apiEnsureStatus.
  destruct (Response.ok resp); cbn [negb]; [|reflexivity].
  cbn. destruct (Response.status resp =? 204); [reflexivity|].
  unfold Response_json. destruct (Response.json resp); reflexivity.
Qed.

End Api.

(** ** Failure of a call *)

Section Abort.
Context (env : Env.t).

Lemma offline_ret {A : Type} (a : A) : offline (mret a).
Proof. intros st. reflexivity. Qed.

Lemma offline_throw {A : Type} (e : JS.exn) : offline (throw e : M A).
Proof. intros st. reflexivity. Qed.

Lemma offline_lift {A : Type} (c : JS.completion A) : offline (lift c).
Proof. intros st. reflexivity. Qed.

Lemma offline_console_write level line : offline (console_write level line).
Proof. intros st. reflexivity. Qed.

Lemma offline_bind {A B : Type} (m : M A) (f : A -> M B) :
  offline m -> (forall a, offline (f a)) -> offline (m ≫= f).
Proof.
  intros Hm Hf st. rewrite bind_run. specialize (Hm st).
  destruct (m st) as [[a|e] st1]; cbn in *; [|exact Hm].
  rewrite Hf. exact Hm.
Qed.

Lemma offline_try_catch {A : Type} (m : M A) (h : JS.exn -> M A) :
  offline m -> (forall e, offline (h e)) -> offline (try_catch m h).
Proof.
  intros Hm Hh st. unfold try_catch. specialize (Hm st).
  destruct (m st) as [[a|e] st1]; cbn in *; [exact Hm|].
  destruct e; try (rewrite Hh; exact Hm). exact Hm.
Qed.

Lemma offline_mapM {A B : Type} (f : A -> M B) (l : list A) :
  (forall a, offline (f a)) -> offline (mapM f l).
Proof.
  intros Hf. induction l as [|a l IH]; cbn [mapM].
  - apply offline_ret.
  - apply offline_bind; [apply Hf | intros b].
    apply offline_bind; [exact IH | intros bs]. apply offline_ret.
Qed.

Lemma offline_readFile path : offline (readFile env path).
Proof.
  unfold readFile. destruct (Env.fs env !! path) as [[content|entries]|];
    [apply offline_ret | apply offline_throw | apply offline_throw].
Qed.

Lemma offline_aborting {A : Type} (m : M A) : offline m -> aborting m.
Proof.
  intros Hm st. exists []. rewrite app_nil_r. split; [apply Hm | left; constructor].
Qed.

Lemma aborting_bind {A B : Type} (m : M A) (f : A -> M B) :
  aborting m -> (forall a, aborting (f a)) -> aborting (m ≫= f).
Proof.
  intros Hm Hf st. rewrite bind_run.
  destruct (Hm st) as (calls1 & Hnet1 & Hord1).
  destruct (m st) as [[a|e] st1]; cbn [fst snd] in *.
  - destruct Hord1 as [Hgood1 | (e & done & call & [=] & _)].
    destruct (Hf a st1) as (calls2 & Hnet2 & Hord2).
    exists (calls1 ++ calls2). rewrite Hnet2, Hnet1, app_assoc. split; [reflexivity|].
    destruct Hord2 as [Hgood2 | (e & done & call & Hres & Hexn & -> & Hdone & Hcall)].
    + left. apply Forall_app. auto.
    + right. exists e, (calls1 ++ done), call. rewrite app_assoc.
      repeat split; try assumption. apply Forall_app. auto.
  - exists calls1. split; [exact Hnet1|].
    destruct Hord1 as [Hgood1 | (e' & done & call & [= <-] & Hexn & -> & Hdone & Hcall)].
    + left. exact Hgood1.
    + right. exists e, done, call. auto.
Qed.

(** Takes a statement apart down to the calls of other functions. *)
Ltac offline_step :=
  cbv beta zeta;
  lazymatch goal with
  | |- offline (mret _) => apply offline_ret
  | |- offline (throw _) => apply offline_throw
  | |- offline (lift _) => apply offline_lift
  | |- offline (console_write _ _) => apply offline_console_write
  | |- offline (readFile _ _) => apply offline_readFile
  | |- offline (_ ≫= _) => apply offline_bind; [|intros ?]
  | |- offline (try_catch _ _) => apply offline_try_catch; [|intros ?]
  | |- offline (mapM _ _) => apply offline_mapM; intros ?
  | |- offline (if ?b then _ else _) => destruct b
  | |- offline (match ?x with _ => _ end) => destruct x
  end.

Ltac aborting_step :=
  cbv beta zeta;
  lazymatch goal with
  | |- aborting (mret _) => apply offline_aborting, offline_ret
  | |- aborting (throw _) => apply offline_aborting, offline_throw
  | |- aborting (lift _) => apply offline_aborting, offline_lift
  | |- aborting (console_write _ _) => apply offline_aborting, offline_console_write
  | |- aborting (_ ≫= _) => apply aborting_bind; [|intros ?]
  | |- aborting (if ?b then _ else _) => destruct b
  | |- aborting (match ?x with _ => _ end) => destruct x
  end.

(** A call that was answered with a failure status, or not at all, throws. *)
Lemma aborting_checked_fetch {A : Type} request (k : Response.t -> M A) :
  (forall resp, offline (k resp)) ->
  aborting (resp ← fetch env request; apiEnsureStatus resp;; k resp).
Proof.
  intros Hk st. rewrite bind_run. unfold fetch.
  exists [(request, Env.fetch env (network st) request)].
  destruct (Env.fetch env (network st) request) as [resp|reason] eqn:Hfetch.
  - rewrite bind_run. unfold apiEnsureStatus.
    destruct (Response.ok resp) eqn:Hok; cbn [negb].
    + cbn [mret M_ret]. rewrite Hk. split; [reflexivity|].
      left. repeat constructor. exact Hok.
    + rewrite !bind_run, !console_write_run. cbn. split; [reflexivity|].
      right. eexists _, [], _. repeat split; [constructor | exact Hok].
  - cbn. split; [reflexivity|].
    right. eexists _, [], _. repeat split; constructor.
Qed.

Lemma offline_Response_json resp : offline (Response_json resp).
Proof. unfold Response_json. repeat offline_step. Qed.

Lemma aborting_invokeApi args method relUrl body :
  aborting (invokeApi env args method relUrl body).
Proof.
  unfold invokeApi. aborting_step; [aborting_step|].
  apply aborting_checked_fetch. intros resp.
  offline_step; [offline_step | apply offline_Response_json].
Qed.

Lemma aborting_invokeApiAttachementUpload args name attachBuffer contentType :
  aborting (invokeApiAttachementUpload env args name attachBuffer contentType).
Proof.
  unfold invokeApiAttachementUpload.
  apply aborting_checked_fetch. intros resp. apply offline_Response_json.
Qed.

Lemma aborting_uploadAllureAttachments args allureAttachments :
  aborting (uploadAllureAttachments env args allureAttachments).
Proof.
  unfold uploadAllureAttachments. generalize (@nil AttachRef.t).
  induction allureAttachments as [|attach rest IH]; intros attachRefs;
    cbn [uploadAllureAttachments_loop].
  - aborting_step.
  - aborting_step.
    + aborting_step; [aborting_step | apply IH].
    + aborting_step; [apply offline_aborting, offline_readFile|].
      aborting_step.
      * aborting_step; [aborting_step | apply IH].
      * aborting_step; [aborting_step|].
        aborting_step; [apply aborting_invokeApiAttachementUpload|].
        aborting_step; [aborting_step | apply IH].
Qed.

(** Induction on a step with the nested steps at hand. *)
Lemma AllureStep_nested_ind (P : AllureStep.t -> Prop) :
  (forall allureStep,
     Forall P (JS.nullish (AllureStep.steps allureStep) []) -> P allureStep) ->
  forall allureStep, P allureStep.
Proof.
  intros step. fix IH 1.
  intros [name [inner|] atts params status start stop]; apply step; cbn.
  - induction inner as [|s inner IHinner]; constructor; [apply IH | exact IHinner].
  - constructor.
Qed.

Lemma aborting_processAllureSteps_loop body allureSteps :
  Forall (fun s => aborting (body s)) allureSteps ->
  forall stepSpecs stepResults,
    aborting (processAllureSteps_loop body allureSteps stepSpecs stepResults).
Proof.
  induction 1 as [|s rest Hs _ IH]; intros stepSpecs stepResults;
    cbn [processAllureSteps_loop].
  - aborting_step.
  - aborting_step; [apply IH|].
    aborting_step; [exact Hs|]. aborting_step. apply IH.
Qed.

Lemma aborting_processAllureStep args allureStep :
  aborting (processAllureStep env args allureStep).
Proof.
  induction allureStep as [allureStep IH] using AllureStep_nested_ind.
  rewrite processAllureStep_unfold.
  aborting_step; [apply aborting_processAllureSteps_loop, IH|].
  aborting_step.
  aborting_step; [apply aborting_uploadAllureAttachments | aborting_step].
Qed.

Lemma aborting_processAllureSteps args allureSteps :
  aborting (processAllureSteps env args allureSteps).
Proof.
  apply aborting_processAllureSteps_loop, Forall_forall.
  intros s _. apply aborting_processAllureStep.
Qed.

Lemma offline_loadAllureResults dir : offline (loadAllureResults env dir).
Proof.
  unfold loadAllureResults, readdirSync, parseResultFile.
  repeat offline_step.
Qed.

Lemma aborting_importTestResult args testRunId total index testResult :
  aborting (importTestResult env args testRunId total index testResult).
Proof.
  unfold importTestResult, upsertAutotest, createBody, testResultBody.
  repeat first
    [ apply aborting_invokeApi
    | apply aborting_processAllureSteps
    | apply aborting_uploadAllureAttachments
    | aborting_step ].
Qed.

Lemma aborting_importTestResults args testRunId total testResults :
  forall index, aborting (importTestResults env args testRunId total index testResults).
Proof.
  induction testResults as [|testResult rest IH]; intros index;
    cbn [importTestResults].
  - aborting_step.
  - aborting_step; [apply aborting_importTestResult | apply IH].
Qed.

Lemma aborting_runImport args : aborting (runImport env args).
Proof.
  unfold runImport.
  repeat first
    [ apply aborting_invokeApi
    | apply aborting_importTestResults
    | apply offline_aborting, offline_loadAllureResults
    | aborting_step ].
Qed.

Lemma offline_parseArgs argv : offline (parseArgs env argv).
Proof.
  unfold parseArgs.
  destruct (drop 2 argv) as [|a0 [|a1 [|a2 [|a3 [|a4 [|a5 more]]]]]];
    repeat offline_step.
Qed.

Lemma invokeApi_failure args method relUrl body st resp :
  Env.fetch env (network st) (apiRequest args method relUrl body) = Responded resp ->
  Response.ok resp = false ->
  fst (invokeApi env args method relUrl body st) =
    JS.Throw (JS.Error ("API returned " +:+ pretty (Response.status resp))).
Proof.
  intros Hfetch Hok. unfold invokeApi. fold (apiRequest args method relUrl body).
  rewrite bind_run, console_write_run, bind_run. unfold fetch. cbn [network].
  rewrite Hfetch, bind_run. unfold apiEnsureStatus. rewrite Hok. reflexivity.
Qed.

Lemma invokeApi_no_content args method relUrl body st resp :
  Env.fetch env (network st) (apiRequest args method relUrl body) = Responded resp ->
  Response.status resp = 204 ->
  fst (invokeApi env args method relUrl body st) = JS.Normal JS.Null.
Proof.
  intros Hfetch Hstatus. unfold invokeApi. fold (apiRequest args method relUrl body).
  rewrite bind_run, console_write_run, bind_run. unfold fetch. cbn [network].
  rewrite Hfetch, bind_run. unfold apiEnsureStatus, Response.ok.
  rewrite Hstatus. reflexivity.
Qed.

(** The calls of a whole invocation: [main] adds none of its own. *)
Lemma main_orderly argv st :
  exists calls res,
    network (snd (main env argv st)) = network st ++ calls /\
    orderly (res : JS.completion unit) calls /\
    (forall e, res = JS.Throw e -> is_exception e = true -> fst (main env argv st) = 1).
Proof.
  unfold main, try_catch.
  set (body := parseArgs env argv ≫= _).
  assert (Hbody : aborting body).
  { subst body. aborting_step; [apply offline_aborting, offline_parseArgs|].
    aborting_step; [apply aborting_runImport|].
    aborting_step; aborting_step. }
  destruct (Hbody st) as (calls & Hnet & Hord).
  exists calls, (fst (body st)). destruct (body st) as [[[]|e] st1]; cbn [fst snd] in *.
  - split; [exact Hnet|]. split; [exact Hord|]. intros e [=].
  - destruct e; cbn; (split; [exact Hnet|]); (split; [exact Hord|]);
      intros e' [= <-] Hexn; try reflexivity; discriminate.
Qed.

(** C6: a response of [invokeApi] whose status is not 2xx raises an error,
    and that error ends the invocation: the failed call is the last call made
    and the process exits with code 1.  A 204 response is a success whose
    body is [null]; the text of the response is not parsed. *)
Theorem api_failure_aborts :
  (forall args method relUrl body st resp,
     Env.fetch env (network st) (apiRequest args method relUrl body) = Responded resp ->
     (Response.ok resp = false ->
      fst (invokeApi env args method relUrl body st) =
        JS.Throw (JS.Error ("API returned " +:+ pretty (Response.status resp)))) /\
     (Response.status resp = 204 ->
      fst (invokeApi env args method relUrl body st) = JS.Normal JS.Null)) /\
  (forall argv st before request resp after,
     network (snd (main env argv st)) =
       network st ++ before ++ (request, Responded resp) :: after ->
     Response.ok resp = false ->
     after = [] /\ fst (main env argv st) = 1).
Proof.
  split.
  - intros args method relUrl body st resp Hfetch. split.
    + apply invokeApi_failure. exact Hfetch.
    + apply invokeApi_no_content. exact Hfetch.
  - intros argv st before request resp after Hnet Hok.
    destruct (main_orderly argv st) as (calls & res & Hcalls & Hord & Hexit).
    rewrite Hcalls in Hnet. apply app_inv_head in Hnet. subst calls.
    destruct Hord as [Hgood | (e & done & call & -> & Hexn & Hsplit & Hdone & Hcall)].
    + apply Forall_app in Hgood as [_ Hgood]. apply Forall_cons in Hgood as [Hgood _].
      cbn in Hgood. congruence.
    + destruct after as [|last after _] using rev_ind.
      * split; [reflexivity | eauto].
      * exfalso. change (before ++ (request, Responded resp) :: after ++ [last])
          with (before ++ ((request, Responded resp) :: after) ++ [last]) in Hsplit.
        rewrite app_assoc in Hsplit. apply app_inj_tail in Hsplit as [<- _].
        apply Forall_app in Hdone as [_ Hdone].
        apply Forall_cons in Hdone as [Hdone _]. cbn in Hdone. congruence.
Qed.
End Abort.

Lemma api_failure_aborts_witness :
  fst (main Outage.env Outage.argv initial) = 1.
Proof.
  refine (proj2 (proj2 (api_failure_aborts Outage.env) Outage.argv initial
            (take 2 (network (snd (main Outage.env Outage.argv initial))))
            Outage.failed_request Outage.failed_response [] _ _)).
  - vm_compute. reflexivity.
  - reflexivity.
Defined.

(** ** Sorting by start *)

Section SortByStart.

#[local] Abbreviation sorted := (StronglySorted (fun a b => startOf a <= startOf b)).

Lemma insert_elem_of (x y : AllureResult.t) (l : list AllureResult.t) :
  y ∈ JS.insert compareByStart x l <-> y = x \/ y ∈ l.
Proof.
  induction l as [|z l IH]; cbn.
  - rewrite list_elem_of_singleton. split; [auto | intros [H|H]; [exact H | inversion H]].
  - destruct (compareByStart x z <=? 0).
    + rewrite !elem_of_cons. tauto.
    + rewrite !elem_of_cons, IH. tauto.
Qed.

Lemma insert_sorted (x : AllureResult.t) (l : list AllureResult.t) :
  sorted l -> sorted (JS.insert compareByStart x l).
Proof.
  induction 1 as [|z l Hl IH Hz]; cbn.
  - repeat constructor.
  - unfold compareByStart at 1. fold (startOf x) (startOf z).
    destruct (Z.leb_spec (startOf x - startOf z) 0) as [Hle|Hgt].
    + constructor; [constructor; assumption|].
      constructor; [lia|]. eapply Forall_impl; [exact Hz|]. cbn. intros; lia.
    + constructor; [exact IH|].
      apply Forall_forall. intros y Hy. apply insert_elem_of in Hy as [->|Hy]; [lia|].
      rewrite Forall_forall in Hz. auto.
Qed.

Lemma sort_sorted (l : list AllureResult.t) : sorted (JS.sort compareByStart l).
Proof.
  induction l as [|x l IH]; cbn; [constructor | apply insert_sorted, IH].
Qed.

Lemma sort_elem_of (y : AllureResult.t) (l : list AllureResult.t) :
  y ∈ JS.sort compareByStart l <-> y ∈ l.
Proof.
  induction l as [|x l IH]; cbn; [reflexivity|].
  rewrite insert_elem_of, elem_of_cons, IH. reflexivity.
Qed.

Context (p : AllureResult.t -> bool).

Lemma find_last_by_Some (l : list AllureResult.t) (w : AllureResult.t) :
  find_last_by p l = Some w -> w ∈ l /\ p w = true.
Proof.
  induction l as [|x l IH]; cbn; [discriminate|].
  destruct (find_last_by p l) as [w'|].
  - intros [= ->]. destruct (IH eq_refl). split; [right|]; assumption.
  - destruct (p x) eqn:Hp; [|discriminate]. intros [= <-]. split; [left | exact Hp].
Qed.

Lemma find_last_by_None (l : list AllureResult.t) :
  find_last_by p l = None -> forall r, r ∈ l -> p r = false.
Proof.
  induction l as [|x l IH]; cbn; intros H r Hr; [inversion Hr|].
  destruct (find_last_by p l) as [w'|]; [discriminate|].
  destruct (p x) eqn:Hp; [discriminate|].
  apply elem_of_cons in Hr as [->|Hr]; auto.
Qed.

(** Where the new element lands relative to the last element satisfying
    [p]: behind it only if it has a greater key. *)
Lemma find_last_by_insert (x : AllureResult.t) (l : list AllureResult.t) :
  sorted l ->
  find_last_by p (JS.insert compareByStart x l) =
  match find_last_by p l with
  | Some w => if p x && (startOf w <? startOf x) then Some x else Some w
  | None => if p x then Some x else None
  end.
Proof.
  induction 1 as [|z l Hl IH Hz]; cbn [JS.insert find_last_by]; [reflexivity|].
  unfold compareByStart at 1. fold (startOf x) (startOf z).
  destruct (Z.leb_spec (startOf x - startOf z) 0) as [Hle|Hgt].
  - cbn [find_last_by].
    destruct (find_last_by p l) as [w|] eqn:Hlast.
    + apply find_last_by_Some in Hlast as [Hw _].
      rewrite Forall_forall in Hz. specialize (Hz w Hw). cbn in Hz.
      replace (startOf w <? startOf x) with false by (symmetry; apply Z.ltb_ge; lia).
      rewrite andb_false_r. reflexivity.
    + destruct (p z); [|reflexivity].
      replace (startOf z <? startOf x) with false by (symmetry; apply Z.ltb_ge; lia).
      rewrite andb_false_r. reflexivity.
  - cbn [find_last_by]. rewrite IH.
    destruct (find_last_by p l) as [w|].
    + destruct (p x && (startOf w <? startOf x)); reflexivity.
    + destruct (p x), (p z); cbn; try reflexivity.
      replace (startOf z <? startOf x) with true by (symmetry; apply Z.ltb_lt; lia).
      reflexivity.
Qed.

(** The last element satisfying [p] after sorting is the one with the
    greatest key, and among those with the greatest key the one that came
    last in the list before sorting. *)
Lemma find_last_by_sort (l : list AllureResult.t) :
  match find_last_by p (JS.sort compareByStart l) with
  | Some w =>
      p w = true /\
      exists k, l !! k = Some w /\
        forall i r, l !! i = Some r -> p r = true ->
          startOf r < startOf w \/ (startOf r = startOf w /\ (i <= k)%nat)
  | None => forall r, r ∈ l -> p r = false
  end.
Proof.
  induction l as [|x l IH]; cbn [JS.sort foldr].
  - intros r Hr. inversion Hr.
  - fold (JS.sort compareByStart l). rewrite find_last_by_insert by apply sort_sorted.
    destruct (find_last_by p (JS.sort compareByStart l)) as [w|].
    + destruct IH as (Hpw & k & Hk & Hmax).
      destruct (p x) eqn:Hpx; cbn [andb].
      * destruct (Z.ltb_spec (startOf w) (startOf x)) as [Hlt|Hge].
        -- split; [exact Hpx|]. exists 0%nat. split; [reflexivity|].
           intros [|i] r Hr Hpr; cbn in Hr.
           ++ injection Hr as <-. right. split; [reflexivity | lia].
           ++ destruct (Hmax i r Hr Hpr) as [?|[? _]]; left; lia.
        -- split; [exact Hpw|]. exists (S k). split; [exact Hk|].
           intros [|i] r Hr Hpr; cbn in Hr.
           ++ injection Hr as <-. destruct (Z.eq_dec (startOf x) (startOf w));
                [right; split; [assumption | lia] | left; lia].
           ++ destruct (Hmax i r Hr Hpr) as [?|[? ?]]; [left; assumption|].
              right. split; [assumption | lia].
      * split; [exact Hpw|]. exists (S k). split; [exact Hk|].
        intros [|i] r Hr Hpr; cbn in Hr.
        -- injection Hr as <-. congruence.
        -- destruct (Hmax i r Hr Hpr) as [?|[? ?]]; [left; assumption|].
           right. split; [assumption | lia].
    + destruct (p x) eqn:Hpx.
      * split; [exact Hpx|]. exists 0%nat. split; [reflexivity|].
        intros [|i] r Hr Hpr; cbn in Hr.
        -- injection Hr as <-. right. split; [reflexivity | lia].
        -- apply list_elem_of_lookup_2 in Hr. rewrite (IH r Hr) in Hpr. discriminate.
      * intros r Hr. apply elem_of_cons in Hr as [->|Hr]; auto.
Qed.
End SortByStart.

(** ** Loading the report files *)

Section Loader.
Context (env : Env.t) (dir : string).

Lemma parseResultFile_run name st :
  exists st', parseResultFile env dir name st = (JS.Normal (parseableFile env dir name), st').
Proof.
  unfold parseResultFile, parseableFile, try_catch, readFile.
  rewrite bind_run.
  destruct (Env.fs env !! Env.path_join env dir name) as [[content|entries]|]; cbn.
  - destruct (Env.JSON_parse env content) as [record|message]; cbn; eauto.
  - eauto.
  - eauto.
Qed.

Lemma mapM_parseResultFile names st :
  exists st',
    mapM (parseResultFile env dir) names st =
      (JS.Normal (map (parseableFile env dir) names), st').
Proof.
  revert st. induction names as [|name names IH]; intros st; cbn [mapM map].
  - eexists. reflexivity.
  - rewrite bind_run. destruct (parseResultFile_run name st) as [st1 ->].
    rewrite bind_run. destruct (IH st1) as [st2 ->]. eexists. reflexivity.
Qed.

Lemma omap_id_map {A B : Type} (f : A -> option B) (l : list A) :
  omap id (map f l) = omap f l.
Proof.
  induction l as [|a l IH]; cbn; [reflexivity|].
  rewrite IH. destruct (f a); reflexivity.
Qed.

(** With a parseable result file in the directory, the load completes, with
    the records sorted by start and entered under their [historyId]. *)
Lemma loadAllureResults_run st :
  resultFilesOf env dir <> [] ->
  exists st',
    loadAllureResults env dir st =
      (JS.Normal
         (JS.fromEntries
            (map (fun it => (AllureResult.historyId it, it))
                 (JS.sort compareByStart (resultFilesOf env dir)))),
       st').
Proof.
  unfold resultFilesOf, loadAllureResults, existsSync, readdirSync.
  destruct (Env.fs env !! dir) as [[content|entries]|]; try congruence.
  intros Hfiles. cbn [negb]. rewrite bind_run. cbn [mret M_ret].
  rewrite bind_run.
  destruct (mapM_parseResultFile
              (filter (fun name => JS.endsWith name "-result.json") entries) st)
    as [st' ->].
  rewrite omap_id_map.
  destruct (omap _ _) as [|it files] eqn:Hfound; [congruence|].
  eexists. reflexivity.
Qed.

Lemma find_last_entries (h : string) (files : list AllureResult.t) :
  find_last h (map (fun it => (AllureResult.historyId it, it)) files) =
  find_last_by (fun it => String.eqb h (AllureResult.historyId it)) files.
Proof.
  induction files as [|it files IH]; cbn; [reflexivity|]. rewrite IH. reflexivity.
Qed.

(** C3: of the parseable result files that share a [historyId], the one that
    sorts last by ascending [start] (no [start] counting as 0, and the later
    file in enumeration order among equal starts) is the one record the
    load keeps for that [historyId]. *)
Theorem loadAllureResults_latest_wins (st : State) (i : nat) (it : AllureResult.t) :
  resultFilesOf env dir !! i = Some it ->
  exists results st' k winner,
    loadAllureResults env dir st = (JS.Normal results, st') /\
    NoDup (JS.keys results) /\
    AllureResult.historyId it ∈ JS.keys results /\
    JS.get (AllureResult.historyId it) results = Some winner /\
    resultFilesOf env dir !! k = Some winner /\
    AllureResult.historyId winner = AllureResult.historyId it /\
    forall j other,
      resultFilesOf env dir !! j = Some other ->
      AllureResult.historyId other = AllureResult.historyId it ->
      startOf other < startOf winner \/
      (startOf other = startOf winner /\ (j <= k)%nat).
Proof.
  intros Hit.
  assert (Hfiles : resultFilesOf env dir <> []).
  { intros Hnil. rewrite Hnil in Hit. discriminate. }
  destruct (loadAllureResults_run st Hfiles) as [st' Hrun].
  set (h := AllureResult.historyId it).
  set (entries := map (fun it => (AllureResult.historyId it, it))
                      (JS.sort compareByStart (resultFilesOf env dir))) in *.
  destruct (ObjectFacts.keys_fromEntries entries) as [Hnodup Hkeys].
  pose proof (find_last_by_sort (fun r => String.eqb h (AllureResult.historyId r))
                (resultFilesOf env dir)) as Hlast.
  destruct (find_last_by _ _) as [winner|] eqn:Hwinner.
  - destruct Hlast as (Hh & k & Hk & Hmax).
    apply String.eqb_eq in Hh.
    exists (JS.fromEntries entries), st', k, winner.
    split; [exact Hrun|]. split; [exact Hnodup|]. split.
    { apply Hkeys. subst entries. rewrite map_map. cbn.
      apply list_elem_of_fmap. exists it. split; [reflexivity|].
      apply sort_elem_of. eapply list_elem_of_lookup_2. exact Hit. }
    split.
    { rewrite ObjectFacts.get_fromEntries. subst entries.
      rewrite find_last_entries. exact Hwinner. }
    split; [exact Hk|]. split; [congruence|].
    intros j other Hj Hother. apply (Hmax j other Hj).
    apply String.eqb_eq. congruence.
  - exfalso. apply list_elem_of_lookup_2 in Hit.
    specialize (Hlast it Hit). cbn in Hlast. rewrite String.eqb_refl in Hlast.
    discriminate.
Qed.
End Loader.

Lemma loadAllureResults_latest_wins_witness :
  exists results st',
    loadAllureResults Example.env "/in" initial = (JS.Normal results, st') /\
    JS.get "h1" results = Some Example.testA.
Proof.
  destruct (loadAllureResults_latest_wins Example.env "/in" initial 1 Example.testA_earlier eq_refl)
    as (results & st' & k & winner & Hrun & _ & _ & Hget & _).
  exists results, st'. split; [exact Hrun|].
  vm_compute in Hrun. injection Hrun as <- _. reflexivity.
Defined.

(** ** Runs that return *)

Section Returns.
Context (env : Env.t) (args : Args.t).
Context (Haccepting : accepting env) (Hplain : plain_attachments env args).

Lemma member_defined (answer : JS.value) (k : string) :
  answer <> JS.Undefined -> answer <> JS.Null ->
  exists v, JS.member answer k = JS.Normal v.
Proof.
  intros Hu Hn. destruct answer as [| |b|n|s|elems|props]; cbn; try congruence; eauto.
  - destruct (String.eqb k "length"); [eauto|].
    destruct (JS.array_index k) as [i|]; [|eauto].
    destruct (String.get (N.to_nat i) s); eauto.
  - destruct (String.eqb k "length"); [eauto|].
    destruct (JS.array_index k) as [i|]; eauto.
Qed.

Lemma invokeApiAttachementUpload_returns name attachBuffer contentType st :
  exists answer st',
    invokeApiAttachementUpload env args name attachBuffer contentType st =
      (JS.Normal answer, st') /\
    answer <> JS.Undefined /\ answer <> JS.Null.
Proof.
  unfold invokeApiAttachementUpload. rewrite bind_run. unfold fetch.
  destruct (Haccepting (network st)
              {| Request.method := "POST";
                 Request.url := Args.url args +:+ "api/v2/attachments";
                 Request.headers := apiAuthHeaders args;
                 Request.body := Multipart name attachBuffer contentType |})
    as (resp & answer & -> & Hok & Hjson & Hu & Hn).
  rewrite bind_run. unfold apiEnsureStatus, Response_json. rewrite Hok, Hjson.
  eexists _, _. split; [reflexivity | auto].
Qed.

Lemma uploadAllureAttachments_loop_returns allureAttachments :
  forall attachRefs st, exists refs st',
    uploadAllureAttachments_loop env args allureAttachments attachRefs st =
      (JS.Normal refs, st').
Proof.
  induction allureAttachments as [|attach rest IH]; intros attachRefs st;
    cbn [uploadAllureAttachments_loop].
  - eexists _, _. reflexivity.
  - unfold existsSync, readFile. fold (attachmentPath env args attach).
    destruct (Env.fs env !! attachmentPath env args attach) as [[content|entries]|] eqn:Hfs;
      cbn [negb].
    + rewrite bind_run. cbn [mret M_ret].
      destruct (String.length content =? 0)%nat.
      * rewrite bind_run, console_write_run. apply IH.
      * rewrite bind_run, console_write_run, bind_run.
        destruct (invokeApiAttachementUpload_returns (Attachment.source attach) content
                    (Attachment.type attach)
                    {| console := console st ++
                         [(log, [Text ("Uploading attachment: " +:+ Attachment.source attach)])];
                       network := network st |})
          as (answer & st1 & -> & Hu & Hn).
        rewrite bind_run. cbn [lift].
        destruct (member_defined answer "id" Hu Hn) as [id ->]. apply IH.
    + exfalso. exact (Hplain attach entries Hfs).
    + rewrite bind_run, console_write_run. apply IH.
Qed.

Lemma processAllureSteps_loop_returns body allureSteps :
  Forall (fun s => forall st, exists r st', body s st = (JS.Normal r, st')) allureSteps ->
  forall stepSpecs stepResults st, exists r st',
    processAllureSteps_loop body allureSteps stepSpecs stepResults st = (JS.Normal r, st').
Proof.
  induction 1 as [|s rest Hs _ IH]; intros stepSpecs stepResults st;
    cbn [processAllureSteps_loop].
  - eexists _, _. reflexivity.
  - destruct (negb (JS.truthy_str (AllureStep.name s))); [apply IH|].
    rewrite bind_run. destruct (Hs st) as ([stepSpec stepResult] & st1 & ->). apply IH.
Qed.

Lemma processAllureStep_returns allureStep :
  forall st, exists r st', processAllureStep env args allureStep st = (JS.Normal r, st').
Proof.
  induction allureStep as [allureStep IH] using AllureStep_nested_ind. intros st.
  rewrite processAllureStep_unfold, bind_run.
  destruct (processAllureSteps_loop_returns _ _ IH [] [] st)
    as ([innerSpecs innerResults] & st1 & Hinner).
  unfold processAllureSteps. rewrite Hinner. cbv zeta. rewrite bind_run.
  destruct (uploadAllureAttachments_loop_returns
              (JS.nullish (AllureStep.attachments allureStep) []) [] st1)
    as (refs & st2 & Hrefs).
  unfold uploadAllureAttachments. rewrite Hrefs. eexists _, _. reflexivity.
Qed.

(** With a service that accepts every upload, the translation of a list of
    steps returns. *)
Lemma processAllureSteps_returns allureSteps st :
  exists stepSpecs stepResults st',
    processAllureSteps env args allureSteps st = (JS.Normal (stepSpecs, stepResults), st').
Proof.
  destruct (processAllureSteps_loop_returns (processAllureStep env args) allureSteps
              (proj2 (Forall_forall _ _) (fun s _ => processAllureStep_returns s)) [] [] st)
    as ([stepSpecs stepResults] & st' & Hrun).
  eauto.
Qed.

Lemma uploadAllureAttachments_returns allureAttachments st :
  exists refs st',
    uploadAllureAttachments env args allureAttachments st = (JS.Normal refs, st').
Proof. apply uploadAllureAttachments_loop_returns. Qed.
End Returns.

(** ** Steps and attachments: what a run returns *)

(** C1: [processAllureSteps] returns step specs and step results of equal
    length, one of each per step with a non-empty name, with the names as
    titles in input order; a step whose name is empty or absent yields no
    entry, and neither it nor anything below it is looked at: the run, with
    all its uploads and console lines, is the run on the list without it.
    The translation returns whenever the service accepts every upload. *)
Theorem processAllureSteps_named_steps (env : Env.t) (args : Args.t)
  (allureSteps : list AllureStep.t) (st : State) :
  let named := filter (fun s => JS.truthy_str (AllureStep.name s)) allureSteps in
  processAllureSteps env args allureSteps st = processAllureSteps env args named st /\
  (forall stepSpecs stepResults st',
     processAllureSteps env args allureSteps st =
       (JS.Normal (stepSpecs, stepResults), st') ->
     length stepSpecs = length stepResults /\
     length stepSpecs = length named /\
     map StepSpec.title stepSpecs =
       map (fun s => JS.nullish (AllureStep.name s) "") named /\
     map StepResult.title stepResults =
       map (fun s => JS.nullish (AllureStep.name s) "") named) /\
  (accepting env -> plain_attachments env args ->
   exists stepSpecs stepResults st',
     processAllureSteps env args allureSteps st =
       (JS.Normal (stepSpecs, stepResults), st')).
Proof.
  intros named. split; [|split].
  - apply processAllureSteps_loop_skip.
  - intros stepSpecs stepResults st' H.
    apply processAllureSteps_loop_titles in H as (newSpecs & newResults & -> & -> & HS & HR).
    2:{ intros s st0 stepSpec stepResult st1 Hs.
        apply processAllureStep_result in Hs. tauto. }
    cbn [app]. fold named in HS, HR.
    assert (HlenS : length newSpecs = length named).
    { rewrite <- (length_map StepSpec.title), HS, length_map. reflexivity. }
    assert (HlenR : length newResults = length named).
    { rewrite <- (length_map StepResult.title), HR, length_map. reflexivity. }
    repeat split; congruence.
  - intros Haccepting Hplain. apply processAllureSteps_returns; assumption.
Qed.

(** C4: [uploadAllureAttachments] returns one reference per descriptor whose
    file exists and is not empty, in the order of the descriptors; a
    descriptor whose file is missing or has zero bytes gets a warning, gives
    no reference and does not stop the loop, so that fewer references than
    descriptors may come back.  The loop returns whenever the service accepts
    every upload. *)
Theorem uploadAllureAttachments_survivors (env : Env.t) (args : Args.t)
  (allureAttachments : list Attachment.t) (st : State) :
  (forall refs st',
     uploadAllureAttachments env args allureAttachments st = (JS.Normal refs, st') ->
     let survivors := filter (fun a => uploadable env args a) allureAttachments in
     length refs = length survivors /\
     (length refs <= length allureAttachments)%nat /\
     exists exchanges lines,
       network st' = network st ++ exchanges /\
       console st' = console st ++ lines /\
       Forall3 (uploaded env args) survivors exchanges refs /\
       filter (fun line => is_warning line) lines =
         map (skipWarning env args)
           (filter (fun a => missing_or_empty env args a) allureAttachments)) /\
  (forall before attach after,
     allureAttachments = before ++ attach :: after ->
     missing_or_empty env args attach = true ->
     fst (uploadAllureAttachments env args allureAttachments st) =
       fst (uploadAllureAttachments env args (before ++ after) st) /\
     network (snd (uploadAllureAttachments env args allureAttachments st)) =
       network (snd (uploadAllureAttachments env args (before ++ after) st))) /\
  (accepting env -> plain_attachments env args ->
   exists refs st',
     uploadAllureAttachments env args allureAttachments st = (JS.Normal refs, st')).
Proof.
  split; [|split].
  - intros refs st' H survivors.
    apply uploadAllureAttachments_loop_normal in H
      as (newRefs & exchanges & lines & -> & Hnet & Hcon & Hup & Hwarn).
    cbn [app]. fold survivors in Hup.
    assert (Hlen : length newRefs = length survivors).
    { clear -Hup. induction Hup; cbn; congruence. }
    split; [exact Hlen|]. split.
    { rewrite Hlen. apply length_filter. }
    exists exchanges, lines. auto.
  - intros before attach after -> Hskip.
    apply sim_uploadAllureAttachments_loop_drop; [exact Hskip | reflexivity].
  - intros Haccepting Hplain. apply uploadAllureAttachments_returns; assumption.
Qed.

(** ** The small world at work *)

Lemma uploadAllureAttachments_survivors_witness :
  exists ref st',
    uploadAllureAttachments Example.env Example.args
      (JS.nullish (AllureStep.attachments Example.step1) []) initial =
      (JS.Normal [ref], st') /\
    length [ref] = 1%nat /\
    fst (uploadAllureAttachments Example.env Example.args
           (JS.nullish (AllureStep.attachments Example.step1) []) initial) =
    fst (uploadAllureAttachments Example.env Example.args
           ([] ++ [Attachment.mk "shot.png" "image/png";
                   Attachment.mk "empty.png" "image/png"]) initial).
Proof.
  eexists _, _. split; [vm_compute; reflexivity|]. split.
  - exact (proj1 (proj1 (uploadAllureAttachments_survivors Example.env Example.args
             (JS.nullish (AllureStep.attachments Example.step1) []) initial)
             _ _ eq_refl)).
  - exact (proj1 (proj1 (proj2 (uploadAllureAttachments_survivors Example.env Example.args
             (JS.nullish (AllureStep.attachments Example.step1) []) initial))
             [] (Attachment.mk "gone.png" "image/png") _ eq_refl eq_refl)).
Defined.


Lemma processAllureSteps_named_steps_witness :
  exists stepSpecs stepResults st',
    processAllureSteps Example.env Example.args [Example.unnamed; Example.step1] initial =
      (JS.Normal (stepSpecs, stepResults), st') /\
    length stepSpecs = length stepResults /\
    map StepSpec.title stepSpecs = ["Step 1"] /\
    map StepResult.title stepResults = ["Step 1"].
Proof.
  eexists _, _, _. split; [vm_compute; reflexivity|].
  pose proof (proj1 (proj2 (processAllureSteps_named_steps Example.env Example.args
                              [Example.unnamed; Example.step1] initial)) _ _ _ eq_refl)
    as (Hlen & _ & Hspecs & Hresults).
  split; [exact Hlen|]. split; [exact Hspecs | exact Hresults].
Defined.


Lemma Example_accepting : accepting Example.env.
Proof.
  intros history request. cbn. unfold Example.service.
  destruct (JS.endsWith (Request.url request) "/search");
    eexists _, _; repeat split; try reflexivity; discriminate.
Defined.

Lemma Example_plain_attachments : plain_attachments Example.env Example.args.
Proof.
  intros attach entries. unfold attachmentPath. cbn.
  rewrite lookup_insert. case_decide as Hkey; [discriminate Hkey|].
  repeat (rewrite lookup_insert; case_decide; [discriminate|]).
  rewrite lookup_singleton. case_decide; discriminate.
Defined.

Lemma processAllureSteps_returns_witness :
  exists stepSpecs stepResults st',
    processAllureSteps Example.env Example.args [Example.unnamed; Example.step1] initial =
      (JS.Normal (stepSpecs, stepResults), st').
Proof.
  exact (processAllureSteps_returns Example.env Example.args Example_accepting
           Example_plain_attachments [Example.unnamed; Example.step1] initial).
Defined.

(** The records of the example directory: the file enumerated first sorts
    last and is the one kept. *)
Example loadAllureResults_example :
  fst (loadAllureResults Example.env "/in" initial) =
  JS.Normal [("h1", Example.testA)].
Proof. vm_compute. reflexivity. Qed.

(** A whole run in the example world: one record, created and appended, with
    the durations of the test and of its step. *)
Example main_example :
  let run := main Example.env Outage.argv initial in
  fst run = 0 /\
  map (fun call => (Request.method (fst call), Request.url (fst call))) (network (snd run)) =
    [("POST", "https://testit.example/api/v2/testRuns/search");
     ("POST", "https://testit.example/api/v2/testRuns");
     ("POST", "https://testit.example/api/v2/autoTests/search");
     ("POST", "https://testit.example/api/v2/attachments");
     ("POST", "https://testit.example/api/v2/autoTests");
     ("POST", "https://testit.example/api/v2/testRuns/id-1/testResults")] /\
  match last (network (snd run)) with
  | Some (request, _) =>
      match Request.body request with
      | Json (JS.Arr [JS.Obj props]) =>
          JS.get "duration" props = Some (JS.Num 1000) /\
          JS.get "outcome" props = Some (JS.Str "Passed") /\
          exists step,
            JS.get "stepResults" props = Some (JS.Arr [JS.Obj step]) /\
            JS.get "title" step = Some (JS.Str "Step 1") /\
            JS.get "duration" step = Some (JS.Num 500)
      | _ => False
      end
  | None => False
  end.
Proof.
  vm_compute. repeat split. eexists. repeat split.
Qed.

(** * Further properties *)

(** ** Command line and exit code *)

Lemma mapM_usage st :
  mapM (fun line => console_write error [Text line]) usage st =
  (JS.Normal [tt; tt; tt],
   {| console := console st ++ usageLines; network := network st |}).
Proof.
  unfold usage, usageLines.
  cbv [mapM map mbind M_bind mret M_ret console_write console network].
  rewrite <- !app_assoc. reflexivity.
Qed.

Lemma parseArgs_short (env : Env.t) (argv : list string) (st : State) :
  (length argv < 8)%nat ->
  parseArgs env argv st =
  (JS.Throw (JS.ProcessExit 1),
   {| console := console st ++ usageLines; network := network st |}).
Proof.
  intros Hlen. unfold parseArgs.
  destruct argv as [|node [|script rest]]; cbn [drop].
  1-2: rewrite bind_run, mapM_usage; reflexivity.
  destruct rest as [|a0 [|a1 [|a2 [|a3 [|a4 [|a5 more]]]]]];
    try (cbn in Hlen; lia); cbn [drop];
    rewrite bind_run, mapM_usage; reflexivity.
Qed.

(** With fewer than six arguments after the script name, the process prints
    the three usage lines on the error stream and exits with code 1 without
    reading a file or calling the service. *)
Theorem main_usage (env : Env.t) (argv : list string) (st : State) :
  (length argv < 8)%nat ->
  main env argv st =
  (1, {| console := console st ++ usageLines; network := network st |}).
Proof.
  intros Hlen. unfold main. cbv zeta. unfold try_catch.
  rewrite bind_run, (parseArgs_short env argv st Hlen). reflexivity.
Qed.

Lemma main_usage_witness :
  fst (main Example.env ["node"; "allure2testit-cli.js"; "/in"; "https://testit.example"]
         initial) = 1.
Proof.
  rewrite (main_usage Example.env
             ["node"; "allure2testit-cli.js"; "/in"; "https://testit.example"] initial);
    [reflexivity | cbn; lia].
Defined.

(** ** The loader: failures and console *)

Section LoaderFailures.
Context (env : Env.t) (dir : string).

Lemma parseResultFile_state name st :
  parseResultFile env dir name st =
  (JS.Normal (parseableFile env dir name),
   {| console := console st ++
        match parseFailure env dir name with
        | Some e => [parseFailureLine env dir name e]
        | None => []
        end;
      network := network st |}).
Proof.
  unfold parseResultFile, parseableFile, parseFailure, parseFailureLine, try_catch, readFile.
  rewrite bind_run. destruct st as [lines calls].
  destruct (Env.fs env !! Env.path_join env dir name) as [[content|entries]|]; cbn.
  - destruct (Env.JSON_parse env content) as [record|message]; cbn;
      rewrite ?app_nil_r; reflexivity.
  - reflexivity.
  - reflexivity.
Qed.

Lemma mapM_parseResultFile_state names st :
  mapM (parseResultFile env dir) names st =
  (JS.Normal (map (parseableFile env dir) names),
   {| console := console st ++
        omap (fun name => parseFailureLine env dir name <$> parseFailure env dir name) names;
      network := network st |}).
Proof.
  revert st. induction names as [|name names IH]; intros st; cbn [mapM map omap].
  - destruct st. cbn. rewrite app_nil_r. reflexivity.
  - rewrite bind_run, parseResultFile_state, bind_run, IH. cbn [console network mret M_ret].
    rewrite <- app_assoc. cbn [omap list_omap].
    destruct (parseFailure env dir name); reflexivity.
Qed.

(** The completion of [loadAllureResults], case by case. *)
Lemma loadAllureResults_cases (st : State) :
  fst (loadAllureResults env dir st) =
  match Env.fs env !! dir with
  | None => JS.Throw (JS.Error ("Directory not found: " +:+ dir))
  | Some (File _) => JS.Throw (JS.SystemError "ENOTDIR" dir)
  | Some (Directory _) =>
      match resultFilesOf env dir with
      | [] => JS.Throw (JS.Error ("No Allure result files found in " +:+ dir))
      | files =>
          JS.Normal (JS.fromEntries
                       (map (fun it => (AllureResult.historyId it, it))
                            (JS.sort compareByStart files)))
      end
  end.
Proof.
  unfold loadAllureResults, resultFilesOf, existsSync, readdirSync.
  destruct (Env.fs env !! dir) as [[content|entries]|]; cbn [negb]; try reflexivity.
  rewrite bind_run. cbn [mret M_ret].
  rewrite bind_run, mapM_parseResultFile_state, omap_id_map.
  destruct (omap _ _) as [|it files]; reflexivity.
Qed.

(** How a load ends: an error for a directory that does not exist, for a path
    that is no directory and for a directory without a usable result file;
    otherwise the records, sorted by start and entered under their
    [historyId].  In every case no call goes to the network. *)
Theorem loadAllureResults_outcome (st : State) :
  fst (loadAllureResults env dir st) =
  match Env.fs env !! dir with
  | None => JS.Throw (JS.Error ("Directory not found: " +:+ dir))
  | Some (File _) => JS.Throw (JS.SystemError "ENOTDIR" dir)
  | Some (Directory _) =>
      match resultFilesOf env dir with
      | [] => JS.Throw (JS.Error ("No Allure result files found in " +:+ dir))
      | files =>
          JS.Normal (JS.fromEntries
                       (map (fun it => (AllureResult.historyId it, it))
                            (JS.sort compareByStart files)))
      end
  end /\
  network (snd (loadAllureResults env dir st)) = network st.
Proof.
  split; [apply loadAllureResults_cases | apply offline_loadAllureResults].
Qed.

(** The only console lines of a load are the error lines of the result files
    that could not be read or parsed, in enumeration order; a file whose JSON
    value is falsy is dropped without a line. *)
Theorem loadAllureResults_console (st : State) :
  console (snd (loadAllureResults env dir st)) =
  console st ++
  omap (fun name => parseFailureLine env dir name <$> parseFailure env dir name)
       (resultFileNames env dir).
Proof.
  unfold loadAllureResults, resultFileNames, existsSync, readdirSync.
  destruct (Env.fs env !! dir) as [[content|entries]|]; cbn [negb];
    try (cbn; rewrite app_nil_r; reflexivity).
  rewrite bind_run. cbn [mret M_ret].
  rewrite bind_run, mapM_parseResultFile_state.
  destruct (length _ =? 0)%nat; reflexivity.
Qed.
End LoaderFailures.

(** ** The loader: order of the records *)

Section ObjectOrder.
Context {V : Type}.

(** A key that is new and no array index goes to the end. *)
Lemma set_append (k : string) (v : V) (o : list (string * V)) :
  JS.array_index k = None -> k ∉ JS.keys o -> JS.set k v o = o ++ [(k, v)].
Proof.
  intros Hindex. induction o as [|[k' v'] o IH]; intros Hnew; [reflexivity|].
  cbn in Hnew. apply not_elem_of_cons in Hnew as [Hne Hnew].
  cbn [JS.set app]. destruct (String.eqb_spec k k') as [|_]; [contradiction|].
  unfold JS.before. rewrite Hindex. cbn [andb]. rewrite (IH Hnew). reflexivity.
Qed.

Lemma foldl_set_append (entries o : list (string * V)) :
  NoDup (JS.keys (o ++ entries)) ->
  Forall (fun e => JS.array_index (fst e) = None) entries ->
  foldl (fun o e => JS.set (fst e) (snd e) o) o entries = o ++ entries.
Proof.
  revert o. induction entries as [|[k v] entries IH]; intros o Hnodup Hkeys; cbn [foldl].
  - rewrite app_nil_r. reflexivity.
  - apply Forall_cons in Hkeys as [Hk Hkeys]. cbn [fst snd] in *.
    unfold JS.keys in Hnodup. rewrite map_app in Hnodup. cbn [map fst] in Hnodup.
    rewrite set_append.
    + rewrite IH; [rewrite <- app_assoc; reflexivity | | exact Hkeys].
      unfold JS.keys. rewrite <- app_assoc, map_app. exact Hnodup.
    + exact Hk.
    + apply NoDup_app in Hnodup as (_ & Hdisjoint & _).
      intros Hin. apply (Hdisjoint k Hin). left.
Qed.

(** With pairwise different keys of which none is an array index,
    [Object.fromEntries] keeps the entries in their order. *)
Lemma fromEntries_distinct (entries : list (string * V)) :
  NoDup (map fst entries) ->
  Forall (fun e => JS.array_index (fst e) = None) entries ->
  JS.fromEntries entries = entries.
Proof.
  intros Hnodup Hkeys. unfold JS.fromEntries.
  rewrite foldl_set_append; [reflexivity | exact Hnodup | exact Hkeys].
Qed.
End ObjectOrder.

Lemma insert_Permutation (x : AllureResult.t) (l : list AllureResult.t) :
  JS.insert compareByStart x l ≡ₚ x :: l.
Proof.
  induction l as [|y l IH]; cbn; [reflexivity|].
  destruct (compareByStart x y <=? 0); [reflexivity|].
  rewrite IH. apply Permutation_swap.
Qed.

Lemma sort_Permutation (l : list AllureResult.t) : JS.sort compareByStart l ≡ₚ l.
Proof.
  induction l as [|x l IH]; cbn; [reflexivity|].
  rewrite insert_Permutation, IH. reflexivity.
Qed.

(** When the result files have pairwise different [historyId]s of which none
    is the decimal form of an array index, the records are kept, and later
    imported, in ascending order of [start]: the loaded records, in the order
    of [Object.values], are the stable sort of the files by [start]. *)
Theorem loadAllureResults_order (env : Env.t) (dir : string) (st : State)
  (results : list (string * AllureResult.t)) (st' : State) :
  loadAllureResults env dir st = (JS.Normal results, st') ->
  NoDup (map AllureResult.historyId (resultFilesOf env dir)) ->
  Forall (fun it => JS.array_index (AllureResult.historyId it) = None)
         (resultFilesOf env dir) ->
  JS.values results = JS.sort compareByStart (resultFilesOf env dir) /\
  StronglySorted (fun a b => startOf a <= startOf b) (JS.values results) /\
  JS.values results ≡ₚ resultFilesOf env dir.
Proof.
  intros Hrun Hnodup Hkeys.
  pose proof (loadAllureResults_cases env dir st) as Hout. rewrite Hrun in Hout.
  cbn [fst] in Hout.
  destruct (Env.fs env !! dir) as [[content|entries]|]; try discriminate.
  destruct (resultFilesOf env dir) as [|it files] eqn:Hfiles; [discriminate|].
  injection Hout as ->.
  assert (Hvalues :
    JS.values (JS.fromEntries (map (fun it => (AllureResult.historyId it, it))
                                   (JS.sort compareByStart (it :: files)))) =
    JS.sort compareByStart (it :: files)).
  { rewrite fromEntries_distinct.
    - unfold JS.values. rewrite map_map. apply map_id.
    - rewrite map_map. cbn [fst].
      rewrite (Permutation_map AllureResult.historyId (sort_Permutation (it :: files))).
      exact Hnodup.
    - apply Forall_map. cbn [fst].
      rewrite (sort_Permutation (it :: files)). exact Hkeys. }
  change (JS.insert compareByStart it (JS.sort compareByStart files))
    with (JS.sort compareByStart (it :: files)).
  rewrite Hvalues. split; [reflexivity|]. split; [apply sort_sorted | apply sort_Permutation].
Qed.

Lemma loadAllureResults_order_witness :
  JS.values (match fst (loadAllureResults Nightly.env "/nightly" initial) with
             | JS.Normal results => results
             | JS.Throw _ => []
             end) = [Nightly.logout; Nightly.login].
Proof.
  assert (Hrun : loadAllureResults Nightly.env "/nightly" initial =
                 (JS.Normal [("b7c2", Nightly.logout); ("a3f1", Nightly.login)], initial))
    by (vm_compute; reflexivity).
  assert (Hfiles : resultFilesOf Nightly.env "/nightly" = [Nightly.login; Nightly.logout])
    by (vm_compute; reflexivity).
  assert (Hnodup : NoDup (map AllureResult.historyId (resultFilesOf Nightly.env "/nightly"))).
  { rewrite Hfiles. apply (bool_decide_unpack _). vm_compute. exact I. }
  assert (Hkeys : Forall (fun it => JS.array_index (AllureResult.historyId it) = None)
                         (resultFilesOf Nightly.env "/nightly")).
  { rewrite Hfiles. repeat constructor. }
  destruct (loadAllureResults_order Nightly.env "/nightly" initial _ _ Hrun Hnodup Hkeys)
    as [Hvalues _].
  rewrite Hrun. cbn [fst]. rewrite Hvalues, Hfiles. vm_compute. reflexivity.
Defined.

(** An all-digit [historyId] is an array index and is imported first,
    whatever its [start]. *)
Example fromEntries_index_first :
  JS.keys (JS.fromEntries [("b7c2", 1000); ("17", 2000)]) = ["17"; "b7c2"].
Proof. reflexivity. Qed.

(** ** Labels and parameters *)

Lemma find_last_absent (k : string) (entries : list NameValue.t) :
  Forall (fun q => NameValue.name q <> k) entries ->
  find_last k (map (fun it => (NameValue.name it, NameValue.value it)) entries) = None.
Proof.
  induction 1 as [|q entries Hq _ IH]; cbn; [reflexivity|].
  rewrite IH. destruct (String.eqb_spec k (NameValue.name q)); congruence.
Qed.

(** In the object made of a list of name and value pairs, a name stands for
    the value of the last pair with that name. *)
Lemma fromEntries_last_pair (before after : list NameValue.t) (p : NameValue.t) :
  Forall (fun q => NameValue.name q <> NameValue.name p) after ->
  JS.get (NameValue.name p)
    (JS.fromEntries (map (fun it => (NameValue.name it, NameValue.value it))
                         (before ++ p :: after))) = Some (NameValue.value p).
Proof.
  intros Hafter. rewrite ObjectFacts.get_fromEntries, map_app, ObjectFacts.find_last_app.
  cbn [map find_last fst snd]. rewrite (find_last_absent _ _ Hafter), String.eqb_refl.
  reflexivity.
Qed.

Lemma fromEntries_no_pair (k : string) (entries : list NameValue.t) :
  Forall (fun q => NameValue.name q <> k) entries ->
  JS.get k (JS.fromEntries (map (fun it => (NameValue.name it, NameValue.value it)) entries))
  = None.
Proof.
  intros Hnone. rewrite ObjectFacts.get_fromEntries. apply find_last_absent, Hnone.
Qed.

(** The parameters of a step result: a parameter name maps to the value of
    the last parameter of the step with that name, each name occurs once, and
    a name that no parameter has is not in the mapping. *)
Theorem processAllureStep_parameters (env : Env.t) (args : Args.t)
  (allureStep : AllureStep.t) (st : State)
  (stepSpec : StepSpec.t) (stepResult : StepResult.t) (st' : State) :
  processAllureStep env args allureStep st = (JS.Normal (stepSpec, stepResult), st') ->
  let parameters := JS.nullish (AllureStep.parameters allureStep) [] in
  NoDup (JS.keys (StepResult.parameters stepResult)) /\
  (forall before p after,
     parameters = before ++ p :: after ->
     Forall (fun q => NameValue.name q <> NameValue.name p) after ->
     JS.get (NameValue.name p) (StepResult.parameters stepResult) =
       Some (NameValue.value p)) /\
  (forall k,
     Forall (fun q => NameValue.name q <> k) parameters ->
     JS.get k (StepResult.parameters stepResult) = None).
Proof.
  rewrite processAllureStep_unfold. intros H parameters.
  bind_inv H. destruct a as [innerSpecs innerResults].
  bind_inv H. injection H as <- <- <-. cbn [StepResult.parameters].
  fold parameters. split; [apply ObjectFacts.keys_fromEntries|]. split.
  - intros before p after -> Hafter. apply fromEntries_last_pair, Hafter.
  - intros k Hnone. apply fromEntries_no_pair, Hnone.
Qed.

Lemma processAllureStep_parameters_witness :
  exists stepSpec stepResult st',
    processAllureStep Example.env Example.args Nested.inner initial =
      (JS.Normal (stepSpec, stepResult), st') /\
    NoDup (JS.keys (StepResult.parameters stepResult)) /\
    JS.get "url" (StepResult.parameters stepResult) = Some "/b" /\
    JS.get "browser" (StepResult.parameters stepResult) = None.
Proof.
  eexists _, _, _. split; [vm_compute; reflexivity|].
  pose proof (processAllureStep_parameters Example.env Example.args Nested.inner initial
                _ _ _ eq_refl) as (Hkeys & Hlast & Habsent).
  split; [exact Hkeys|]. split.
  - apply (Hlast [NameValue.mk "url" "/a"] (NameValue.mk "url" "/b") []);
      [reflexivity | constructor].
  - apply (Habsent "browser"). repeat constructor; discriminate.
Defined.

(** The classification of an autotest: [classname] is the value of the last
    label named [testClass] and [namespace] that of the last label named
    [package]; without such a label the field is [undefined], which
    [JSON.stringify] leaves out of the request. *)
Theorem autotestData_classification (args : Args.t) (testResult : AllureResult.t)
  (stepSpecs : list StepSpec.t) :
  let labels := JS.nullish (AllureResult.labels testResult) [] in
  let data := autotestData args testResult stepSpecs in
  (forall before label after,
     labels = before ++ label :: after ->
     Forall (fun q => NameValue.name q <> NameValue.name label) after ->
     (NameValue.name label = "testClass" ->
      JS.get "classname" data = Some (JS.Str (NameValue.value label))) /\
     (NameValue.name label = "package" ->
      JS.get "namespace" data = Some (JS.Str (NameValue.value label)))) /\
  (Forall (fun q => NameValue.name q <> "testClass") labels ->
   JS.get "classname" data = Some JS.Undefined) /\
  (Forall (fun q => NameValue.name q <> "package") labels ->
   JS.get "namespace" data = Some JS.Undefined).
Proof.
  intros labels data. subst data. unfold autotestData. fold labels.
  split; [|split].
  - intros before label after Hlabels Hafter.
    pose proof (fromEntries_last_pair before after label Hafter) as Hget.
    rewrite <- Hlabels in Hget.
    split; intros Hname; rewrite Hname in Hget;
      rewrite ObjectFacts.get_fromEntries; cbn [find_last String.eqb fst snd];
      rewrite Hget; reflexivity.
  - intros Hnone. rewrite ObjectFacts.get_fromEntries. cbn [find_last String.eqb fst snd].
    rewrite (fromEntries_no_pair _ _ Hnone). reflexivity.
  - intros Hnone. rewrite ObjectFacts.get_fromEntries. cbn [find_last String.eqb fst snd].
    rewrite (fromEntries_no_pair _ _ Hnone). reflexivity.
Qed.

Lemma autotestData_classification_witness :
  JS.get "classname" (autotestData Example.args Nightly.login []) =
    Some (JS.Str "LoginTest").
Proof.
  exact (proj1 (proj1 (autotestData_classification Example.args Nightly.login [])
                  [NameValue.mk "testClass" "Old"; NameValue.mk "package" "web.auth"]
                  (NameValue.mk "testClass" "LoginTest") [] eq_refl ltac:(constructor))
               eq_refl).
Defined.

(** ** A run that cannot start *)

Section NoInput.
Context (env : Env.t).

Lemma loadAllureResults_nothing dir st :
  resultFilesOf env dir = [] ->
  exists e st',
    loadAllureResults env dir st = (JS.Throw e, st') /\
    is_exception e = true /\ network st' = network st.
Proof.
  intros Hnone.
  pose proof (loadAllureResults_cases env dir st) as Hout.
  pose proof (offline_loadAllureResults env dir st) as Hnet.
  destruct (loadAllureResults env dir st) as [res st']. cbn [fst snd] in *.
  rewrite Hnone in Hout.
  destruct (Env.fs env !! dir) as [[content|entries]|]; subst res; eauto.
Qed.

Lemma runImport_nothing args st :
  resultFilesOf env (Args.inputDir args) = [] ->
  exists e st',
    runImport env args st = (JS.Throw e, st') /\
    is_exception e = true /\ network st' = network st.
Proof.
  intros Hnone. unfold runImport.
  do 6 (rewrite bind_run, console_write_run). rewrite bind_run.
  match goal with
  | |- context [loadAllureResults env ?dir ?st0] =>
      destruct (loadAllureResults_nothing dir st0 Hnone) as (e & st' & -> & Hexn & Hnet)
  end.
  exists e, st'. auto.
Qed.

(** Without a usable result file (the directory is missing, is no directory,
    or holds no result file that parses to a record) nothing is sent to the
    service and the process exits with code 1. *)
Theorem main_nothing_to_import (argv : list string) (st : State)
  (args : Args.t) (st0 : State) :
  parseArgs env argv st = (JS.Normal args, st0) ->
  resultFilesOf env (Args.inputDir args) = [] ->
  fst (main env argv st) = 1 /\ network (snd (main env argv st)) = network st.
Proof.
  intros Hargs Hnone. unfold main. cbv zeta. unfold try_catch.
  rewrite bind_run, Hargs, bind_run.
  destruct (runImport_nothing args st0 Hnone) as (e & st' & -> & Hexn & Hnet).
  pose proof (offline_parseArgs env argv st) as Hoff. rewrite Hargs in Hoff.
  cbn [snd] in Hoff.
  destruct e; try discriminate; rewrite bind_run, console_write_run; cbn;
    (split; [reflexivity | congruence]).
Qed.
End NoInput.

Lemma main_nothing_to_import_witness :
  fst (main Example.env
         ["node"; "allure2testit-cli.js"; "/elsewhere"; "https://testit.example";
          "secret"; "P"; "C"; "Run"] initial) = 1.
Proof.
  refine (proj1 (main_nothing_to_import Example.env
                   ["node"; "allure2testit-cli.js"; "/elsewhere"; "https://testit.example";
                    "secret"; "P"; "C"; "Run"] initial
                   {| Args.inputDir := "/elsewhere";
                      Args.url := "https://testit.example/";
                      Args.token := "secret";
                      Args.projectId := "P";
                      Args.configurationId := "C";
                      Args.testRunName := "Run" |} initial _ _));
    vm_compute; reflexivity.
Defined.

(** ** How a run ends *)

Section Ending.
Context (env : Env.t).

(** A call that gets no answer (the transport fails) ends the invocation:
    it is the last call made, and the process exits with code 1. *)
Theorem transport_failure_aborts (argv : list string) (st : State)
  (before after : list (Request.t * FetchResult)) (request : Request.t) (reason : string) :
  network (snd (main env argv st)) =
    network st ++ before ++ (request, Rejected reason) :: after ->
  after = [] /\ fst (main env argv st) = 1.
Proof.
  intros Hnet.
  destruct (main_orderly env argv st) as (calls & res & Hcalls & Hord & Hexit).
  rewrite Hcalls in Hnet. apply app_inv_head in Hnet. subst calls.
  destruct Hord as [Hgood | (e & done & call & -> & Hexn & Hsplit & Hdone & Hcall)].
  - apply Forall_app in Hgood as [_ Hgood]. apply Forall_cons in Hgood as [Hgood _].
    discriminate Hgood.
  - destruct after as [|last after _] using rev_ind.
    + split; [reflexivity | eauto].
    + exfalso. change (before ++ (request, Rejected reason) :: after ++ [last])
        with (before ++ ((request, Rejected reason) :: after) ++ [last]) in Hsplit.
      rewrite app_assoc in Hsplit. apply app_inj_tail in Hsplit as [<- _].
      apply Forall_app in Hdone as [_ Hdone].
      apply Forall_cons in Hdone as [Hdone _]. discriminate Hdone.
Qed.

(** The process exits with code 0 only if every call it made was answered
    with a 2xx status. *)
Theorem exit_zero_all_succeeded (argv : list string) (st : State) :
  fst (main env argv st) = 0 ->
  exists calls,
    network (snd (main env argv st)) = network st ++ calls /\
    Forall (fun call => exists resp, snd call = Responded resp /\ Response.ok resp = true)
           calls.
Proof.
  intros Hexit.
  destruct (main_orderly env argv st) as (calls & res & Hcalls & Hord & Hone).
  exists calls. split; [exact Hcalls|].
  destruct Hord as [Hgood | (e & done & call & -> & Hexn & _)].
  - eapply Forall_impl; [exact Hgood|]. intros [request result] Hok.
    unfold succeeded in Hok. cbn [snd] in *. destruct result as [resp|reason]; [eauto | discriminate].
  - rewrite (Hone e eq_refl Hexn) in Hexit. discriminate.
Qed.
End Ending.

Lemma transport_failure_aborts_witness :
  fst (main Unplugged.env Outage.argv initial) = 1.
Proof.
  refine (proj2 (transport_failure_aborts Unplugged.env Outage.argv initial
                   [] [] Unplugged.request "ECONNREFUSED" _)).
  vm_compute. reflexivity.
Defined.

Lemma exit_zero_all_succeeded_witness :
  exists calls,
    network (snd (main Example.env Outage.argv initial)) = network initial ++ calls /\
    Forall (fun call => exists resp, snd call = Responded resp /\ Response.ok resp = true)
           calls.
Proof.
  apply (exit_zero_all_succeeded Example.env Outage.argv initial).
  vm_compute. reflexivity.
Defined.

(** ** One call of the API *)

Section OneCall.
Context (env : Env.t) (args : Args.t).

(** The completion of [invokeApi], by the answer to its call. *)
Lemma invokeApi_cases (method relUrl : string) (body : JS.value) (st : State) :
  let request := apiRequest args method relUrl body in
  let result := Env.fetch env (network st) request in
  let completion := fst (invokeApi env args method relUrl body st) in
  match result with
  | Rejected reason => completion = JS.Throw (JS.FetchError reason)
  | Responded resp =>
      if negb (Response.ok resp) then
        completion = JS.Throw (JS.Error ("API returned " +:+ pretty (Response.status resp)))
      else if Response.status resp =? 204 then completion = JS.Normal JS.Null
      else match Response.json resp with
           | Some answer => completion = JS.Normal answer
           | None => exists e, completion = JS.Throw e
           end
  end.
Proof.
  intros request result completion.
  subst completion. unfold invokeApi. fold (apiRequest args method relUrl body). fold request.
  rewrite bind_run, console_write_run, bind_run. unfold fetch. cbn [network].
  fold result. destruct result as [resp|reason]; [|reflexivity].
  rewrite bind_run. unfold apiEnsureStatus.
  destruct (Response.ok resp); cbn [negb]; [|reflexivity].
  cbn. destruct (Response.status resp =? 204); [reflexivity|].
  unfold Response_json. destruct (Response.json resp); [reflexivity | eexists; reflexivity].
Qed.

(** [invokeApi] makes exactly one call, built from the method, the base URL
    followed by the relative URL, the token and the body.  What it returns
    follows from the answer alone: no answer and a status outside 2xx throw,
    204 gives [null], and any other 2xx status gives the JSON value of the
    answer or throws if the answer is not JSON. *)
Theorem invokeApi_outcome (method relUrl : string) (body : JS.value) (st : State) :
  let request := apiRequest args method relUrl body in
  let result := Env.fetch env (network st) request in
  let completion := fst (invokeApi env args method relUrl body st) in
  network (snd (invokeApi env args method relUrl body st)) =
    network st ++ [(request, result)] /\
  JS.get "Authorization" (Request.headers request) =
    Some ("PrivateToken " +:+ Args.token args) /\
  JS.get "Content-Type" (Request.headers request) = Some "application/json" /\
  match result with
  | Rejected reason => completion = JS.Throw (JS.FetchError reason)
  | Responded resp =>
      if negb (Response.ok resp) then
        completion = JS.Throw (JS.Error ("API returned " +:+ pretty (Response.status resp)))
      else if Response.status resp =? 204 then completion = JS.Normal JS.Null
      else match Response.json resp with
           | Some answer => completion = JS.Normal answer
           | None => exists e, completion = JS.Throw e
           end
  end.
Proof.
  intros request result completion.
  split; [apply invokeApi_network|].
  split; [reflexivity|]. split; [reflexivity|].
  apply invokeApi_cases.
Qed.

(** A run of [invokeApi] that returns. *)
Lemma invokeApi_normal method relUrl body st answer st' :
  invokeApi env args method relUrl body st = (JS.Normal answer, st') ->
  exists resp,
    Response.ok resp = true /\
    network st' = network st ++ [(apiRequest args method relUrl body, Responded resp)].
Proof.
  intros Hrun.
  pose proof (invokeApi_network env args method relUrl body st) as Hnet.
  pose proof (invokeApi_cases method relUrl body st) as Hres. cbv zeta in Hres.
  rewrite Hrun in Hnet, Hres. cbn [fst snd] in *.
  destruct (Env.fetch env (network st) _) as [resp|reason]; [|discriminate].
  exists resp. split; [|exact Hnet].
  destruct (Response.ok resp); [reflexivity | discriminate].
Qed.
End OneCall.

(** ** A record without status details *)

Lemma testResultBody_needs_statusDetails (env : Env.t) (args : Args.t)
  (testResult : AllureResult.t) (stepResults : list StepResult.t) (st : State)
  (body : JS.value) (st' : State) :
  AllureResult.statusDetails testResult = None ->
  testResultBody env args testResult stepResults st <> (JS.Normal body, st').
Proof.
  intros Hnone Hrun. unfold testResultBody in Hrun. rewrite Hnone in Hrun.
  do 4 bind_inv Hrun.
  match goal with H : throw _ _ = (JS.Normal _, _) |- _ => discriminate H end.
Qed.

(** A test record without [statusDetails] cannot be imported: reading its
    message throws after the autotest was looked up and written, so the
    import of the record never completes. *)
Theorem importTestResult_needs_statusDetails (env : Env.t) (args : Args.t)
  (testRunId : JS.value) (total index : nat) (testResult : AllureResult.t) (st : State) :
  AllureResult.statusDetails testResult = None ->
  exists e st', importTestResult env args testRunId total index testResult st = (JS.Throw e, st').
Proof.
  intros Hnone.
  destruct (importTestResult env args testRunId total index testResult st)
    as [[[]|e] st'] eqn:Hrun; [exfalso | eauto].
  unfold importTestResult in Hrun.
  repeat (bind_inv Hrun; try match goal with x : (_ * _)%type |- _ => destruct x end).
  match goal with
  | H : testResultBody _ _ _ _ _ = (JS.Normal _, _) |- _ =>
      exact (testResultBody_needs_statusDetails _ _ _ _ _ _ _ Hnone H)
  end.
Qed.

Lemma importTestResult_needs_statusDetails_witness :
  exists e st',
    importTestResult Nightly.env Example.args (JS.Str "run-1") 2 1 Nightly.login initial =
      (JS.Throw e, st').
Proof.
  exact (importTestResult_needs_statusDetails Nightly.env Example.args (JS.Str "run-1") 2 1
           Nightly.login initial eq_refl).
Defined.

(** ** The translation of steps, at every depth *)

Lemma stepSpecOf_unfold allureStep :
  stepSpecOf allureStep =
  {| StepSpec.title := JS.nullish (AllureStep.name allureStep) "";
     StepSpec.steps := map_named stepSpecOf (JS.nullish (AllureStep.steps allureStep) []) |}.
Proof. destruct allureStep as [name [inner|] atts params status start stop]; reflexivity. Qed.

Lemma stepResultOf_unfold allureStep :
  stepResultOf allureStep =
  {| StepResult.title := JS.nullish (AllureStep.name allureStep) "";
     StepResult.stepResults :=
       map_named stepResultOf (JS.nullish (AllureStep.steps allureStep) []);
     StepResult.outcome := allureStatusToOutcome (AllureStep.status allureStep);
     StepResult.duration :=
       duration_of (AllureStep.start allureStep) (AllureStep.stop allureStep);
     StepResult.parameters :=
       JS.fromEntries
         (map (fun param => (NameValue.name param, NameValue.value param))
              (JS.nullish (AllureStep.parameters allureStep) []));
     StepResult.attachments := [] |}.
Proof. destruct allureStep as [name [inner|] atts params status start stop]; reflexivity. Qed.

Lemma stepAttachments_unfold allureStep :
  stepAttachments allureStep =
  flat_named stepAttachments (JS.nullish (AllureStep.steps allureStep) []) ++
  JS.nullish (AllureStep.attachments allureStep) [].
Proof. destruct allureStep as [name [inner|] atts params status start stop]; reflexivity. Qed.

Lemma withoutAttachments_unfold stepResult :
  withoutAttachments stepResult =
  {| StepResult.title := StepResult.title stepResult;
     StepResult.stepResults := map withoutAttachments (StepResult.stepResults stepResult);
     StepResult.outcome := StepResult.outcome stepResult;
     StepResult.duration := StepResult.duration stepResult;
     StepResult.parameters := StepResult.parameters stepResult;
     StepResult.attachments := [] |}.
Proof. destruct stepResult; reflexivity. Qed.

Lemma specOfResult_unfold stepResult :
  specOfResult stepResult =
  {| StepSpec.title := StepResult.title stepResult;
     StepSpec.steps := map specOfResult (StepResult.stepResults stepResult) |}.
Proof. destruct stepResult; reflexivity. Qed.

Section Translation.
Context (env : Env.t) (args : Args.t).

Lemma processAllureSteps_loop_translated allureSteps :
  Forall (translated env args) allureSteps ->
  forall stepSpecs stepResults st stepSpecs' stepResults' st',
    processAllureSteps_loop (processAllureStep env args) allureSteps stepSpecs stepResults st =
      (JS.Normal (stepSpecs', stepResults'), st') ->
    exists newSpecs newResults,
      stepSpecs' = stepSpecs ++ newSpecs /\
      stepResults' = stepResults ++ newResults /\
      newSpecs = map_named stepSpecOf allureSteps /\
      map withoutAttachments newResults = map_named stepResultOf allureSteps /\
      newSpecs = map specOfResult newResults.
Proof.
  induction 1 as [|s rest Hs _ IH];
    intros stepSpecs stepResults st stepSpecs' stepResults' st' Hrun;
    cbn [processAllureSteps_loop map_named] in *.
  - injection Hrun as <- <- _. exists [], []. rewrite !app_nil_r. auto.
  - destruct (JS.truthy_str (AllureStep.name s)); cbn [negb] in Hrun.
    + bind_inv Hrun. destruct a as [stepSpec stepResult].
      apply Hs in Hrun0 as (Hspec & Hresult & Hshape).
      apply IH in Hrun as (newSpecs & newResults & -> & -> & HS & HR & Hsame).
      exists (stepSpec :: newSpecs), (stepResult :: newResults).
      rewrite <- !app_assoc. cbn [app map].
      repeat split; congruence.
    + apply IH in Hrun. exact Hrun.
Qed.

Lemma processAllureStep_translated allureStep : translated env args allureStep.
Proof.
  induction allureStep as [allureStep IH] using AllureStep_nested_ind.
  intros st stepSpec stepResult st' Hrun.
  rewrite processAllureStep_unfold in Hrun.
  bind_inv Hrun. destruct a as [innerSpecs innerResults].
  apply (processAllureSteps_loop_translated _ IH) in Hrun0
    as (newSpecs & newResults & -> & -> & HS & HR & Hsame).
  bind_inv Hrun. injection Hrun as <- <- _. cbn [app].
  rewrite stepSpecOf_unfold, stepResultOf_unfold, withoutAttachments_unfold,
    specOfResult_unfold.
  cbn [StepResult.title StepResult.stepResults StepResult.outcome StepResult.duration
       StepResult.parameters].
  rewrite HR, <- HS, <- Hsame. auto.
Qed.

(** The translation is a function of the steps: when it returns, the step
    specs are those of the named steps, at every depth, the step results
    are, but for their attachment references, the results of the named steps
    with normalised outcome, duration and parameters, and the specs have the
    shape of the results. *)
Theorem processAllureSteps_translation (allureSteps : list AllureStep.t) (st : State)
  (stepSpecs : list StepSpec.t) (stepResults : list StepResult.t) (st' : State) :
  processAllureSteps env args allureSteps st = (JS.Normal (stepSpecs, stepResults), st') ->
  stepSpecs = map_named stepSpecOf allureSteps /\
  map withoutAttachments stepResults = map_named stepResultOf allureSteps /\
  stepSpecs = map specOfResult stepResults.
Proof.
  intros Hrun.
  apply processAllureSteps_loop_translated in Hrun
    as (newSpecs & newResults & -> & -> & HS & HR & Hsame).
  - auto.
  - apply Forall_forall. intros s _. apply processAllureStep_translated.
Qed.
End Translation.

Lemma processAllureSteps_translation_witness :
  exists stepSpecs stepResults st',
    processAllureSteps Example.env Example.args [Nested.outer] initial =
      (JS.Normal (stepSpecs, stepResults), st') /\
    stepSpecs =
      [{| StepSpec.title := "Scenario";
          StepSpec.steps := [{| StepSpec.title := "Open page"; StepSpec.steps := [] |}] |}] /\
    stepSpecs = map specOfResult stepResults.
Proof.
  eexists _, _, _. split; [vm_compute; reflexivity|].
  pose proof (processAllureSteps_translation Example.env Example.args [Nested.outer] initial
                _ _ _ eq_refl) as (Hspecs & _ & Hshape).
  split; [exact Hspecs | exact Hshape].
Defined.

(** ** The uploads of a translation *)

Section UploadOrder.
Context (env : Env.t) (args : Args.t).

Lemma Forall3_upload_of attachments exchanges refs :
  Forall3 (uploaded env args) attachments exchanges refs ->
  Forall2 (upload_of env args) attachments exchanges.
Proof.
  induction 1 as [|a ex ref attachments exchanges refs Hup _ IH]; constructor;
    [exists ref; exact Hup | exact IH].
Qed.

Lemma uploadAllureAttachments_uploads allureAttachments st refs st' :
  uploadAllureAttachments env args allureAttachments st = (JS.Normal refs, st') ->
  exists exchanges,
    network st' = network st ++ exchanges /\
    Forall2 (upload_of env args)
      (filter (fun a => uploadable env args a) allureAttachments) exchanges.
Proof.
  intros Hrun. apply uploadAllureAttachments_loop_normal in Hrun
    as (newRefs & exchanges & lines & _ & Hnet & _ & Hup & _).
  exists exchanges. split; [exact Hnet | eapply Forall3_upload_of, Hup].
Qed.

Lemma processAllureSteps_loop_uploads allureSteps :
  Forall (uploads_in_order env args) allureSteps ->
  forall stepSpecs stepResults st r st',
    processAllureSteps_loop (processAllureStep env args) allureSteps stepSpecs stepResults st =
      (JS.Normal r, st') ->
    exists exchanges,
      network st' = network st ++ exchanges /\
      Forall2 (upload_of env args)
        (filter (fun a => uploadable env args a) (flat_named stepAttachments allureSteps))
        exchanges.
Proof.
  induction 1 as [|s rest Hs _ IH]; intros stepSpecs stepResults st r st' Hrun;
    cbn [processAllureSteps_loop flat_named] in *.
  - injection Hrun as _ <-. exists []. rewrite app_nil_r. split; [reflexivity | constructor].
  - destruct (JS.truthy_str (AllureStep.name s)); cbn [negb] in Hrun.
    + bind_inv Hrun. destruct a as [stepSpec stepResult].
      apply Hs in Hrun0 as (exchanges1 & Hnet1 & Hup1).
      apply IH in Hrun as (exchanges2 & Hnet2 & Hup2).
      exists (exchanges1 ++ exchanges2). rewrite Hnet2, Hnet1, app_assoc.
      split; [reflexivity|]. rewrite filter_app. apply Forall2_app; assumption.
    + eapply IH, Hrun.
Qed.

Lemma processAllureStep_uploads allureStep : uploads_in_order env args allureStep.
Proof.
  induction allureStep as [allureStep IH] using AllureStep_nested_ind.
  intros st r st' Hrun. rewrite processAllureStep_unfold in Hrun.
  bind_inv Hrun. destruct a as [innerSpecs innerResults].
  apply (processAllureSteps_loop_uploads _ IH) in Hrun0 as (exchanges1 & Hnet1 & Hup1).
  bind_inv Hrun. apply uploadAllureAttachments_uploads in Hrun0 as (exchanges2 & Hnet2 & Hup2).
  injection Hrun as _ <-.
  exists (exchanges1 ++ exchanges2). rewrite Hnet2, Hnet1, app_assoc.
  split; [reflexivity|].
  rewrite stepAttachments_unfold, filter_app. apply Forall2_app; assumption.
Qed.

(** The calls of a translation that returns are uploads and nothing else:
    one for each attachment, with an existing file that is not empty, of a
    named step all of whose enclosing steps are named, the attachments of the
    steps below a step coming before its own.  An attachment below an unnamed
    step is never sent. *)
Theorem processAllureSteps_uploads (allureSteps : list AllureStep.t) (st : State)
  (stepSpecs : list StepSpec.t) (stepResults : list StepResult.t) (st' : State) :
  processAllureSteps env args allureSteps st = (JS.Normal (stepSpecs, stepResults), st') ->
  exists exchanges,
    network st' = network st ++ exchanges /\
    Forall2 (upload_of env args)
      (filter (fun a => uploadable env args a) (flat_named stepAttachments allureSteps))
      exchanges.
Proof.
  intros Hrun. eapply processAllureSteps_loop_uploads; [|exact Hrun].
  apply Forall_forall. intros s _. apply processAllureStep_uploads.
Qed.
End UploadOrder.

Lemma processAllureSteps_uploads_witness :
  exists first second st',
    network st' = [first; second] /\
    upload_of Example.env Example.args (Attachment.mk "shot.png" "image/png") first /\
    upload_of Example.env Example.args (Attachment.mk "shot.png" "text/plain") second.
Proof.
  destruct (processAllureSteps_uploads Example.env Example.args [Nested.outer] initial
              _ _ _ eq_refl) as (exchanges & Hnet & Hup).
  vm_compute in Hnet. subst exchanges.
  apply Forall2_cons_1 in Hup as [Hfirst Hup].
  apply Forall2_cons_1 in Hup as [Hsecond _].
  eexists _, _, {| console := []; network := _ |}. split; [reflexivity|].
  split; [exact Hfirst | exact Hsecond].
Defined.

(** ** Which calls are made *)

Lemma eqb_append_l (s a b : string) : String.eqb (s +:+ a) (s +:+ b) = String.eqb a b.
Proof.
  induction s as [|c s IH]; [reflexivity|].
  change (String.eqb (String c (s +:+ a)) (String c (s +:+ b)) = String.eqb a b).
  cbn [String.eqb]. rewrite Ascii.eqb_refl. exact IH.
Qed.

Lemma prefix_append (s t : string) : String.prefix s (s +:+ t) = true.
Proof.
  induction s as [|c s IH]; [destruct t; reflexivity|].
  change (String.prefix (String c s) (String c (s +:+ t)) = true).
  cbn [String.prefix]. destruct (ascii_dec c c); [exact IH | contradiction].
Qed.

Section Counting.
Context (env : Env.t) (args : Args.t) (p : Request.t -> bool).

Lemma at_most_offline {A : Type} (m : M A) (n : nat) : offline m -> at_most n p m.
Proof.
  intros Hm st. exists []. rewrite app_nil_r. split; [apply Hm | cbn; lia].
Qed.

Lemma at_most_weaken {A : Type} (m : M A) (n n' : nat) :
  (n <= n')%nat -> at_most n p m -> at_most n' p m.
Proof.
  intros Hle Hm st. destruct (Hm st) as (calls & Hnet & Hcount).
  exists calls. split; [exact Hnet | lia].
Qed.

Lemma at_most_bind {A B : Type} (n1 n2 : nat) (m : M A) (f : A -> M B) :
  at_most n1 p m -> (forall a, at_most n2 p (f a)) -> at_most (n1 + n2) p (m ≫= f).
Proof.
  intros Hm Hf st. rewrite bind_run.
  destruct (Hm st) as (calls1 & Hnet1 & Hcount1).
  destruct (m st) as [[a|e] st1]; cbn [fst snd] in *.
  - destruct (Hf a st1) as (calls2 & Hnet2 & Hcount2).
    exists (calls1 ++ calls2). rewrite Hnet2, Hnet1, app_assoc. split; [reflexivity|].
    rewrite filter_app, length_app. lia.
  - exists calls1. split; [exact Hnet1 | lia].
Qed.

Lemma at_most_invokeApi method relUrl body :
  at_most (if p (apiRequest args method relUrl body) then 1 else 0) p
    (invokeApi env args method relUrl body).
Proof.
  intros st. eexists. split; [apply invokeApi_network|].
  rewrite filter_cons_bool. cbn [fst].
  destruct (p (apiRequest args method relUrl body)); cbn; lia.
Qed.

Lemma invokeApiAttachementUpload_network name attachBuffer contentType st :
  exists result,
    network (snd (invokeApiAttachementUpload env args name attachBuffer contentType st)) =
    network st ++
    [({| Request.method := "POST";
         Request.url := Args.url args +:+ "api/v2/attachments";
         Request.headers := apiAuthHeaders args;
         Request.body := Multipart name attachBuffer contentType |}, result)].
Proof.
  unfold invokeApiAttachementUpload. rewrite bind_run. unfold fetch.
  destruct (Env.fetch env (network st) _) as [resp|reason]; [|eexists; reflexivity].
  rewrite bind_run. unfold apiEnsureStatus.
  destruct (Response.ok resp); cbn [negb]; [|eexists; reflexivity].
  cbn. unfold Response_json. destruct (Response.json resp); eexists; reflexivity.
Qed.

(** The requests that [p] must not hold of for the import of the records to
    be free of calls satisfying [p]. *)
Context (Hupload : forall name attachBuffer contentType,
           p {| Request.method := "POST";
                Request.url := Args.url args +:+ "api/v2/attachments";
                Request.headers := apiAuthHeaders args;
                Request.body := Multipart name attachBuffer contentType |} = false).
Context (Hsearch : forall body,
           p (apiRequest args "POST" "api/v2/autoTests/search" body) = false).
Context (Hupdate : forall body, p (apiRequest args "PUT" "api/v2/autoTests" body) = false).
Context (Hcreate : forall body, p (apiRequest args "POST" "api/v2/autoTests" body) = false).
Context (Happend : forall testRunId body,
           p (apiRequest args "POST"
                ("api/v2/testRuns/" +:+ JS.to_string testRunId +:+ "/testResults") body)
           = false).

Lemma at_most_invokeApi_zero method relUrl body :
  p (apiRequest args method relUrl body) = false ->
  at_most 0 p (invokeApi env args method relUrl body).
Proof.
  intros Hp. pose proof (at_most_invokeApi method relUrl body) as H.
  rewrite Hp in H. exact H.
Qed.

Lemma at_most_invokeApiAttachementUpload name attachBuffer contentType :
  at_most 0 p (invokeApiAttachementUpload env args name attachBuffer contentType).
Proof.
  intros st.
  destruct (invokeApiAttachementUpload_network name attachBuffer contentType st)
    as [result Hnet].
  eexists. split; [exact Hnet|].
  rewrite filter_cons_bool. cbn [fst]. rewrite Hupload. cbn. lia.
Qed.

Ltac count_step :=
  cbv beta zeta;
  lazymatch goal with
  | |- at_most 0 p (mret _) => apply at_most_offline, offline_ret
  | |- at_most 0 p (throw _) => apply at_most_offline, offline_throw
  | |- at_most 0 p (lift _) => apply at_most_offline, offline_lift
  | |- at_most 0 p (console_write _ _) => apply at_most_offline, offline_console_write
  | |- at_most 0 p (_ ≫= _) => apply (at_most_bind 0 0); [|intros ?]
  | |- at_most 0 p (if ?b then _ else _) => destruct b
  | |- at_most 0 p (match ?x with _ => _ end) => destruct x
  end.

Lemma at_most_uploadAllureAttachments allureAttachments :
  at_most 0 p (uploadAllureAttachments env args allureAttachments).
Proof.
  unfold uploadAllureAttachments. generalize (@nil AttachRef.t).
  induction allureAttachments as [|attach rest IH]; intros attachRefs;
    cbn [uploadAllureAttachments_loop].
  - count_step.
  - count_step.
    + count_step; [count_step | apply IH].
    + count_step; [apply at_most_offline, offline_readFile|].
      count_step.
      * count_step; [count_step | apply IH].
      * count_step; [count_step|].
        count_step; [apply at_most_invokeApiAttachementUpload|].
        count_step; [count_step | apply IH].
Qed.

Lemma at_most_processAllureSteps_loop body allureSteps :
  Forall (fun s => at_most 0 p (body s)) allureSteps ->
  forall stepSpecs stepResults,
    at_most 0 p (processAllureSteps_loop body allureSteps stepSpecs stepResults).
Proof.
  induction 1 as [|s rest Hs _ IH]; intros stepSpecs stepResults;
    cbn [processAllureSteps_loop].
  - count_step.
  - count_step; [apply IH|].
    count_step; [exact Hs|]. count_step. apply IH.
Qed.

Lemma at_most_processAllureStep allureStep :
  at_most 0 p (processAllureStep env args allureStep).
Proof.
  induction allureStep as [allureStep IH] using AllureStep_nested_ind.
  rewrite processAllureStep_unfold.
  count_step; [apply at_most_processAllureSteps_loop, IH|].
  count_step.
  count_step; [apply at_most_uploadAllureAttachments | count_step].
Qed.

Lemma at_most_processAllureSteps allureSteps :
  at_most 0 p (processAllureSteps env args allureSteps).
Proof.
  apply at_most_processAllureSteps_loop, Forall_forall.
  intros s _. apply at_most_processAllureStep.
Qed.

Lemma at_most_importTestResult testRunId total index testResult :
  at_most 0 p (importTestResult env args testRunId total index testResult).
Proof.
  unfold importTestResult, upsertAutotest, createBody, testResultBody.
  repeat first
    [ apply at_most_invokeApi_zero;
        first [apply Hsearch | apply Hupdate | apply Hcreate | apply Happend]
    | apply at_most_processAllureSteps
    | apply at_most_uploadAllureAttachments
    | count_step ].
Qed.

Lemma at_most_importTestResults testRunId total testResults :
  forall index,
    at_most 0 p (importTestResults env args testRunId total index testResults).
Proof.
  induction testResults as [|testResult rest IH]; intros index;
    cbn [importTestResults].
  - count_step.
  - count_step; [apply at_most_importTestResult | apply IH].
Qed.

(** The calls of [runImport] that satisfy [p] are among the two calls about
    the test run. *)
Lemma at_most_runImport :
  at_most ((if p (apiRequest args "POST" "api/v2/testRuns/search" (runBody args))
            then 1 else 0) +
           (if p (apiRequest args "POST" "api/v2/testRuns" (runBody args))
            then 1 else 0)) p (runImport env args).
Proof.
  unfold runImport. fold (runBody args).
  do 6 (apply (at_most_bind 0); [apply at_most_offline, offline_console_write | intros _]).
  apply (at_most_bind 0); [apply at_most_offline, offline_loadAllureResults | intros results].
  cbv zeta.
  apply (at_most_bind 0); [apply at_most_offline, offline_console_write | intros _].
  apply at_most_bind; [apply at_most_invokeApi | intros existingTestRun].
  apply (at_most_bind 0); [apply at_most_offline, offline_lift | intros matchingTestRun].
  rewrite <- (Nat.add_0_r (if p _ then 1 else 0)).
  apply at_most_bind; [|intros testRunId; apply at_most_importTestResults].
  destruct (JS.truthy matchingTestRun).
  - apply (at_most_weaken _ 0); [lia|]. repeat count_step.
  - apply (at_most_bind 0); [apply at_most_offline, offline_console_write | intros _].
    rewrite <- (Nat.add_0_r (if p _ then 1 else 0)).
    apply at_most_bind; [apply at_most_invokeApi | intros testRunResp].
    repeat count_step.
Qed.

Lemma at_most_upsertAutotest testResult autotestMatches data stepResults :
  at_most 0 p (upsertAutotest env args testResult autotestMatches data stepResults).
Proof.
  unfold upsertAutotest, createBody.
  repeat first
    [ apply at_most_invokeApi_zero; first [apply Hupdate | apply Hcreate]
    | count_step ].
Qed.

Lemma at_most_testResultBody testResult stepResults :
  at_most 0 p (testResultBody env args testResult stepResults).
Proof.
  unfold testResultBody.
  repeat first [apply at_most_uploadAllureAttachments | count_step].
Qed.

Lemma at_most_testRunId matchingTestRun :
  p (apiRequest args "POST" "api/v2/testRuns" (runBody args)) = false ->
  at_most 0 p
    (if JS.truthy matchingTestRun then
       testRunId ← lift (JS.member matchingTestRun "id");
       console_write log
         [Text ("Using existing test run with ID: " +:+ JS.to_string testRunId)];;
       mret testRunId
     else
       console_write log [Text "Creating new test run"];;
       testRunResp ← invokeApi env args "POST" "api/v2/testRuns" (runBody args);
       testRunId ← lift (JS.member testRunResp "id");
       console_write log [Text ("Created test run with ID: " +:+ JS.to_string testRunId)];;
       mret testRunId).
Proof.
  intros Hp.
  repeat first [apply at_most_invokeApi_zero; exact Hp | count_step].
Qed.
End Counting.

(** ** The test run *)

Lemma filter_none_Forall {A : Type} (p : A -> bool) (l : list A) :
  (length (filter (fun a => p a) l) <= 0)%nat -> Forall (fun a => p a = false) l.
Proof.
  induction l as [|a l IH]; [constructor|].
  rewrite filter_cons_bool. destruct (p a) eqn:Hp; cbn [length]; intros Hlen; [lia|].
  constructor; auto.
Qed.

Lemma main_network (env : Env.t) (argv : list string) (st : State)
  (args : Args.t) (st0 : State) :
  parseArgs env argv st = (JS.Normal args, st0) ->
  network st0 = network st /\
  network (snd (main env argv st)) = network (snd (runImport env args st0)).
Proof.
  intros Hargs. split.
  { pose proof (offline_parseArgs env argv st) as Hoff. rewrite Hargs in Hoff. exact Hoff. }
  unfold main. cbv zeta. unfold try_catch. rewrite bind_run, Hargs, bind_run.
  destruct (runImport env args st0) as [[[]|e] st1]; cbn [snd].
  - rewrite bind_run, console_write_run. reflexivity.
  - destruct e; try reflexivity; rewrite bind_run, console_write_run; reflexivity.
Qed.

Section TestRun.
Context (env : Env.t) (args : Args.t).

Lemma creates_run_apiRequest method relUrl body :
  creates_run args (apiRequest args method relUrl body) =
  String.eqb method "POST" && String.eqb relUrl "api/v2/testRuns".
Proof. unfold creates_run, apiRequest. cbn. rewrite eqb_append_l. reflexivity. Qed.

(** In one invocation at most one test run is created: of all calls made by
    [runImport], at most one is the [POST] to [api/v2/testRuns]. *)
Theorem runImport_creates_at_most_one_run (st : State) :
  exists calls,
    network (snd (runImport env args st)) = network st ++ calls /\
    (length (filter (fun call => creates_run args (fst call)) calls) <= 1)%nat.
Proof.
  pose proof (at_most_runImport env args (creates_run args)) as Hcount.
  rewrite !creates_run_apiRequest in Hcount. cbn in Hcount.
  apply Hcount; intros; rewrite ?eqb_append_l; reflexivity.
Qed.



End TestRun.


(** ** Every call carries the token and goes to the given server *)

Lemma authorised_apiRequest (args : Args.t) method relUrl body :
  authorised args (apiRequest args method relUrl body) = true.
Proof.
  assert (JS.get "Authorization" (Request.headers (apiRequest args method relUrl body)) =
          Some ("PrivateToken " +:+ Args.token args)) as Hget by (vm_compute; reflexivity).
  unfold authorised. rewrite Hget. cbn [apiRequest Request.url].
  rewrite String.eqb_refl, prefix_append. reflexivity.
Qed.

(** Every call that an invocation makes carries the header
    [Authorization: PrivateToken <token>] and goes to a URL that starts with
    the normalised server URL of the command line. *)
Theorem main_calls_authorised (env : Env.t) (argv : list string) (st : State)
  (args : Args.t) (st0 : State) :
  parseArgs env argv st = (JS.Normal args, st0) ->
  exists calls,
    network (snd (main env argv st)) = network st ++ calls /\
    Forall (fun call => authorised args (fst call) = true) calls.
Proof.
  intros Hargs. destruct (main_network env argv st args st0 Hargs) as [Hnet0 Hnet].
  pose proof (at_most_runImport env args (fun rq => negb (authorised args rq))) as Hcount.
  cbv beta in Hcount. rewrite !authorised_apiRequest in Hcount.
  cbn [negb Nat.add] in Hcount.
  destruct (Hcount
              ltac:(intros; unfold authorised; cbn [Request.headers Request.url];
                    change (JS.get "Authorization" (apiAuthHeaders args))
                      with (Some ("PrivateToken " +:+ Args.token args));
                    cbv beta iota; rewrite String.eqb_refl, prefix_append; reflexivity)
              ltac:(intros; rewrite authorised_apiRequest; reflexivity)
              ltac:(intros; rewrite authorised_apiRequest; reflexivity)
              ltac:(intros; rewrite authorised_apiRequest; reflexivity)
              ltac:(intros; rewrite authorised_apiRequest; reflexivity)
              st0) as (calls & Hcalls & Hlen).
  exists calls. split; [rewrite Hnet, Hcalls, Hnet0; reflexivity|].
  apply filter_none_Forall in Hlen.
  eapply Forall_impl; [exact Hlen|]. cbn. intros call Hcall.
  destruct (authorised args (fst call)); [reflexivity | discriminate].
Qed.

Lemma main_calls_authorised_witness :
  exists calls,
    network (snd (main Example.env Outage.argv initial)) = network initial ++ calls /\
    Forall (fun call => authorised Example.args (fst call) = true) calls.
Proof.
  apply (main_calls_authorised Example.env Outage.argv initial Example.args initial).
  vm_compute. reflexivity.
Defined.

(** ** One result per record *)

Lemma omap_silent {A B : Type} (p : A -> bool) (f : A -> option B) (l : list A) :
  (forall a, p a = false -> f a = None) ->
  (length (filter (fun a => p a) l) <= 0)%nat ->
  omap f l = [].
Proof.
  intros Hf Hlen. apply filter_none_Forall in Hlen.
  induction Hlen as [|a l Ha _ IH]; [reflexivity|].
  cbn. rewrite (Hf a Ha). exact IH.
Qed.

Lemma eqb_longer (s t u : string) :
  (String.length s < String.length u)%nat -> String.eqb s (t +:+ u) = false.
Proof.
  intros Hlen. destruct (String.eqb_spec s (t +:+ u)) as [->|]; [|reflexivity].
  rewrite length_append in Hlen. lia.
Qed.

Section Appends.
Context (env : Env.t) (args : Args.t).

Lemma emits_silent {A B : Type} (p : Request.t -> bool) (f : Request.t -> option B)
  (m : M A) :
  (forall request, p request = false -> f request = None) ->
  at_most 0 p m -> emits f [] m.
Proof.
  intros Hf Hm st a st' Hrun.
  destruct (Hm st) as (calls & Hnet & Hlen). rewrite Hrun in Hnet.
  exists calls. split; [exact Hnet|].
  apply (omap_silent (fun call => p (fst call))); [|exact Hlen].
  intros call. apply Hf.
Qed.

Lemma emits_bind {A B C : Type} (f : Request.t -> option C) (l1 l2 : list C)
  (m : M A) (g : A -> M B) :
  emits f l1 m -> (forall a, emits f l2 (g a)) -> emits f (l1 ++ l2) (m ≫= g).
Proof.
  intros Hm Hg st b st' Hrun.
  apply bind_normal in Hrun as (a & st1 & Hrun1 & Hrun2).
  destruct (Hm _ _ _ Hrun1) as (calls1 & Hnet1 & Hsel1).
  destruct (Hg a _ _ _ Hrun2) as (calls2 & Hnet2 & Hsel2).
  exists (calls1 ++ calls2). rewrite Hnet2, Hnet1, app_assoc. split; [reflexivity|].
  rewrite omap_app, Hsel1, Hsel2. reflexivity.
Qed.

Lemma appended_silent testRunId request :
  is_append args testRunId request = false -> appended args testRunId request = None.
Proof. intros Hno. unfold appended. rewrite Hno. reflexivity. Qed.

Lemma is_append_apiRequest testRunId method relUrl body :
  is_append args testRunId (apiRequest args method relUrl body) =
  String.eqb method "POST" &&
  String.eqb relUrl ("api/v2/testRuns/" +:+ JS.to_string testRunId +:+ "/testResults").
Proof. unfold is_append, apiRequest. cbn. rewrite eqb_append_l. reflexivity. Qed.

Lemma testResultBody_externalId testResult stepResults st body st' :
  testResultBody env args testResult stepResults st = (JS.Normal body, st') ->
  exists fields,
    body = JS.Arr [JS.Obj fields] /\
    JS.get "autoTestExternalId" fields = Some (JS.Str (AllureResult.historyId testResult)).
Proof.
  intros Hrun. unfold testResultBody in Hrun. cbv zeta in Hrun.
  do 4 bind_inv Hrun. injection Hrun as <- _.
  eexists. split; [reflexivity|]. vm_compute. reflexivity.
Qed.

Ltac silent testRunId :=
  apply (emits_bind _ [] _);
  [ apply (emits_silent (is_append args testRunId));
    [ apply appended_silent | ]
  | intros ? ].

Ltac not_append :=
  intros; first [rewrite is_append_apiRequest | unfold is_append]; cbn;
  rewrite ?eqb_append_l; reflexivity.

(** Importing one record appends one result, the record's. *)
Lemma emits_importTestResult testRunId total index testResult :
  emits (appended args testRunId) [AllureResult.historyId testResult]
    (importTestResult env args testRunId total index testResult).
Proof.
  unfold importTestResult.
  silent testRunId; [apply at_most_offline, offline_console_write|].
  silent testRunId; [apply at_most_invokeApi_zero; not_append|].
  silent testRunId; [apply at_most_processAllureSteps; not_append|].
  match goal with a : _ * _ |- _ => destruct a as [stepSpecs stepResults] end.
  cbv zeta.
  silent testRunId; [apply at_most_upsertAutotest; not_append|].
  silent testRunId; [apply at_most_offline, offline_console_write|].
  intros st out st' Hrun.
  bind_inv Hrun. bind_inv Hrun. injection Hrun as _ <-.
  match goal with
  | Hbody : testResultBody _ _ _ _ _ = _, Hcall : invokeApi _ _ _ _ _ _ = _ |- _ =>
      destruct (at_most_testResultBody env args (is_append args testRunId)
                  ltac:(not_append) testResult stepResults st) as (calls & Hnet & Hlen);
      rewrite Hbody in Hnet; cbn [snd] in Hnet;
      apply testResultBody_externalId in Hbody as (fields & -> & Hid);
      apply invokeApi_normal in Hcall as (resp & _ & Hnet')
  end.
  eexists. split; [rewrite Hnet', Hnet, <- app_assoc; reflexivity|].
  rewrite omap_app.
  rewrite (omap_silent (fun call => is_append args testRunId (fst call)));
    [|intros call; apply appended_silent|exact Hlen].
  cbn [omap list_omap fst app]. unfold appended. rewrite is_append_apiRequest.
  rewrite !String.eqb_refl. cbn. rewrite Hid. reflexivity.
Qed.

Lemma emits_importTestResults testRunId total testResults :
  forall index,
    emits (appended args testRunId) (map AllureResult.historyId testResults)
      (importTestResults env args testRunId total index testResults).
Proof.
  induction testResults as [|testResult rest IH]; intros index; cbn [importTestResults map].
  - intros st a st' [= _ <-]. exists []. rewrite app_nil_r. split; reflexivity.
  - apply (emits_bind _ [_] _); [apply emits_importTestResult | intros _; apply IH].
Qed.
End Appends.

Section AppendedRecords.
Context (env : Env.t) (args : Args.t).

Lemma loadAllureResults_returns dir st results st' :
  loadAllureResults env dir st = (JS.Normal results, st') ->
  results =
    JS.fromEntries (map (fun it => (AllureResult.historyId it, it))
                        (JS.sort compareByStart (resultFilesOf env dir))) /\
  network st' = network st.
Proof.
  intros Hrun. split.
  - pose proof (loadAllureResults_cases env dir st) as Hout. rewrite Hrun in Hout.
    cbn [fst] in Hout.
    destruct (Env.fs env !! dir) as [[content|entries]|]; try discriminate.
    destruct (resultFilesOf env dir) as [|it files]; [discriminate|].
    injection Hout as ->. reflexivity.
  - pose proof (offline_loadAllureResults env dir st) as Hoff. rewrite Hrun in Hoff.
    exact Hoff.
Qed.

(** When the import returns, the results it has appended to the test run are
    those of the loaded records, one for each record and in the order of the
    records: the [autoTestExternalId]s of the appended results, call after
    call, are the [historyId]s of the values of the loaded object. *)
Theorem runImport_appends_each_record (st : State) :
  fst (runImport env args st) = JS.Normal tt ->
  exists testRunId calls,
    network (snd (runImport env args st)) = network st ++ calls /\
    omap (fun call => appended args testRunId (fst call)) calls =
      map AllureResult.historyId
          (JS.values
             (JS.fromEntries
                (map (fun it => (AllureResult.historyId it, it))
                     (JS.sort compareByStart (resultFilesOf env (Args.inputDir args)))))).
Proof.
  intros Hfst. destruct (runImport env args st) as [res st'] eqn:Hrun.
  cbn [fst snd] in *. subst res.
  unfold runImport in Hrun. fold (runBody args) in Hrun.
  do 6 (rewrite bind_run, console_write_run in Hrun).
  apply bind_normal in Hrun as (results & st1 & Hload & Hrun).
  apply loadAllureResults_returns in Hload as [-> Hnet1]. cbn [network] in Hnet1.
  cbv zeta in Hrun. rewrite bind_run, console_write_run in Hrun.
  apply bind_normal in Hrun as (existingTestRun & st2 & Hsearch & Hrun).
  apply invokeApi_normal in Hsearch as (resp & _ & Hnet2). cbn [network] in Hnet2.
  apply bind_normal in Hrun as (matchingTestRun & st3 & Hfind & Hrun).
  assert (st3 = st2) as ->.
  { unfold lift in Hfind. destruct (JS.find _ _); injection Hfind as _ <-; reflexivity. }
  apply bind_normal in Hrun as (testRunId & st4 & Hid & Hrun).
  destruct (at_most_testRunId env args (is_append args testRunId) matchingTestRun
              ltac:(rewrite is_append_apiRequest; reflexivity) st2)
    as (calls3 & Hnet3 & Hlen3).
  rewrite Hid in Hnet3. cbn [snd] in Hnet3.
  apply emits_importTestResults in Hrun as (calls4 & Hnet4 & Hsel4).
  exists testRunId. eexists. split.
  - rewrite Hnet4, Hnet3, Hnet2, Hnet1, <- !app_assoc. reflexivity.
  - rewrite !omap_app, Hsel4.
    rewrite (omap_silent (fun call => is_append args testRunId (fst call)) _ calls3);
      [|intros call; apply appended_silent|exact Hlen3].
    cbn [omap list_omap fst app]. rewrite appended_silent; [reflexivity|].
    rewrite is_append_apiRequest.
    change "api/v2/testRuns/search" with ("api/v2/testRuns/" +:+ "search").
    rewrite eqb_append_l, eqb_longer; [reflexivity | cbn; lia].
Qed.
End AppendedRecords.

Lemma runImport_appends_each_record_witness :
  exists testRunId calls,
    network (snd (runImport Example.env Example.args initial)) = network initial ++ calls /\
    omap (fun call => appended Example.args testRunId (fst call)) calls =
      map AllureResult.historyId
          (JS.values
             (JS.fromEntries
                (map (fun it => (AllureResult.historyId it, it))
                     (JS.sort compareByStart
                        (resultFilesOf Example.env (Args.inputDir Example.args)))))).
Proof.
  apply (runImport_appends_each_record Example.env Example.args initial).
  vm_compute. reflexivity.
Defined.

(** ** A time stamp outside the range of [Date] *)

Lemma convertAllureTimestamp_out_of_range_witness :
  convertAllureTimestamp (Some 8640000000000001) =
  JS.Throw (JS.RangeError "Invalid time value").
Proof.
  apply (convertAllureTimestamp_out_of_range 8640000000000001).
  vm_compute. reflexivity.
Defined.
